(** * SatSnake v2: the zap payment engine, embedded and checked

    A shallow embedding of the payment code of the SatSnake repository:

    - the bech32 encoder of [js/lightning/LightningPaymentManager.js],
    - the receipt validator of [js/nostr-relay-manager.js],
    - the LNURL negotiation flow of the "Lightning Payment UI Manager",
    - the listener wiring of the game class.

    Part III adds the set-up of the relay manager, the tip manager's
    [initiatePayment] and the game's payment flow from the button to the
    timeout.

    JavaScript numbers that take part in bit operations are modelled as [Z]
    with the ToInt32 wrap-around written out; other numbers are integers or
    NaN, with the product and the quotient by 1000 rounded to the nearest
    double as the engine rounds them.  Host built-ins that are not code of
    the repository (JSON.parse, fetch, the URL class, the clock) are
    parameters of the model. *)

From Stdlib Require Import ZArith List String Ascii Bool Lia.
From Stdlib.Strings Require Import Byte.
From Stdlib Require Import DecimalString.
From Equations Require Import Equations.
Import ListNotations.

Local Open Scope string_scope.
Local Open Scope list_scope.
Local Open Scope Z_scope.

(* ===================================================================== *)
(** * Part I: the embedding                                              *)
(* ===================================================================== *)

(** ** 32-bit integer operators of JavaScript *)

Module Int32.

(** ToInt32: reduce modulo 2^32 into the signed range. *)
Definition wrap (x : Z) : Z := (x + 2 ^ 31) mod 2 ^ 32 - 2 ^ 31.

(** [x << n]: the count is taken modulo 32, the result wraps. *)
Definition shl (x n : Z) : Z := wrap (Z.shiftl (wrap x) (n mod 32)).

(** [x >> n]: sign-propagating shift. *)
Definition sar (x n : Z) : Z := Z.shiftr (wrap x) (n mod 32).

Definition and (x y : Z) : Z := Z.land (wrap x) (wrap y).
Definition or (x y : Z) : Z := Z.lor (wrap x) (wrap y).
Definition xor (x y : Z) : Z := Z.lxor (wrap x) (wrap y).

End Int32.

(** ** The bech32 encoder (js/lightning/LightningPaymentManager.js) *)

Module Bech32.

Definition CHARSET : string := "qpzry9x8gf2tvdw0s3jn54khce6mua7l".

Definition byte_val (b : byte) : Z := Z.of_N (Byte.to_N b).

Definition charCodeAt0 (c : ascii) : Z := Z.of_N (N_of_ascii c).

(** The inner [while (bitsLen >= 5)] loop of [bech32To5Bit]: returns the
    remaining bit count and the extended word list. *)
Equations? drain (bits bitsLen : Z) (words : list Z) : Z * list Z
  by wf (Z.to_nat bitsLen) lt :=
  drain bits bitsLen words with Z_le_dec 5 bitsLen => {
    | left _ =>
        drain bits (bitsLen - 5)
              (words ++ [Int32.and (Int32.sar bits (bitsLen - 5)) 31]);
    | right _ => (bitsLen, words) }.
Proof. lia. Qed.

(** One turn of [for (let b of data)]; the state is (bits, bitsLen, words). *)
Definition to5_step (st : Z * Z * list Z) (b : Z) : Z * Z * list Z :=
  let '(bits, bitsLen, words) := st in
  let bits := Int32.or (Int32.shl bits 8) b in
  let bitsLen := bitsLen + 8 in
  let '(bitsLen, words) := drain bits bitsLen words in
  (bits, bitsLen, words).

(** The last statement of [bech32To5Bit]: push what is still pending. *)
Definition flush (st : Z * Z * list Z) : list Z :=
  let '(bits, bitsLen, words) := st in
  if 0 <? bitsLen
  then words ++ [Int32.and (Int32.shl bits (5 - bitsLen)) 31]
  else words.

Definition bech32To5Bit (data : list byte) : list Z :=
  flush (fold_left to5_step (map byte_val data) (0, 0, [])).

(** [-((b >> i) & 1) & c]: all-ones or zero mask applied to [c]. *)
Definition gen_term (b i c : Z) : Z :=
  Int32.and (- Int32.and (Int32.sar b i) 1) c.

Definition bech32PolymodStep (pre : Z) : Z :=
  let b := Int32.sar pre 25 in
  Int32.xor (Int32.xor (Int32.xor (Int32.xor (Int32.xor
    (Int32.shl (Int32.and pre 33554431 (* 0x1ffffff *)) 5)
    (gen_term b 0 62302890 (* 0x3b6aaaa *)))
    (gen_term b 1 29709654 (* 0x1c55556 *)))
    (gen_term b 2 15311570 (* 0x0e9a2d2 *)))
    (gen_term b 3 7656236 (* 0x074d32c *)))
    (gen_term b 4 3828037 (* 0x03a6945 *)).

Definition checksum_indices : list Z := [0; 1; 2; 3; 4; 5].

Definition bech32CreateChecksum (prefix : string) (data : list Z) : list Z :=
  let polymod := 1 in
  let polymod :=
    fold_left (fun p c => Int32.xor (bech32PolymodStep p)
                                    (Int32.and (charCodeAt0 c) 31))
              (list_ascii_of_string (prefix ++ "1")%string) polymod in
  let polymod :=
    fold_left (fun p d => Int32.xor (bech32PolymodStep p) d) data polymod in
  let polymod :=
    fold_left (fun p _ => bech32PolymodStep p) checksum_indices polymod in
  let polymod := Int32.xor polymod 1 in
  map (fun i => Int32.and (Int32.sar polymod (5 * (5 - i))) 31)
      checksum_indices.

(** [CHARSET[w]]; an index outside the string reads [undefined], which
    string concatenation spells out. *)
Definition charset_at (w : Z) : string :=
  if w <? 0 then "undefined"
  else match String.get (Z.to_nat w) CHARSET with
       | Some c => String c EmptyString
       | None => "undefined"
       end.

Definition upper_ascii (c : ascii) : ascii :=
  let n := nat_of_ascii c in
  if ((97 <=? n) && (n <=? 122))%nat then ascii_of_nat (n - 32) else c.

(** [String.prototype.toUpperCase] on ASCII text. *)
Fixpoint toUpperCase (s : string) : string :=
  match s with
  | EmptyString => EmptyString
  | String c r => String (upper_ascii c) (toUpperCase r)
  end.

Definition bech32Encode (prefix : string) (data : list byte) : string :=
  let words := bech32To5Bit data in
  let checksum := bech32CreateChecksum prefix words in
  let combined := words ++ checksum in
  let result := fold_left (fun r w => (r ++ charset_at w)%string) combined
                          (prefix ++ "1")%string in
  toUpperCase result.

(** *** The encoding as the specification words it *)

(** The eight bits of a byte, most significant first. *)
Definition byte_bits (b : byte) : list bool :=
  map (Z.testbit (byte_val b)) [7; 6; 5; 4; 3; 2; 1; 0].

(** Value of a bit string read most significant bit first. *)
Definition bits_value (l : list bool) : Z :=
  fold_left (fun acc b => 2 * acc + Z.b2z b) l 0.

(** Cut a bit string into groups of five; a final partial group is
    filled with zero bits on the low end. *)
Fixpoint groups_of5 (l : list bool) : list (list bool) :=
  match l with
  | [] => []
  | a :: b :: c :: d :: e :: r => [a; b; c; d; e] :: groups_of5 r
  | _ => [l ++ repeat false (5 - List.length l)%nat]
  end.

Definition spec_regroup (data : list byte) : list Z :=
  map bits_value (groups_of5 (flat_map byte_bits data)).

(** The complete groups at the front of a bit string, and the bits left
    over behind them. *)
Fixpoint full_groups (l : list bool) : list (list bool) :=
  match l with
  | a :: b :: c :: d :: e :: r => [a; b; c; d; e] :: full_groups r
  | _ => []
  end.

Fixpoint leftover (l : list bool) : list bool :=
  match l with
  | a :: b :: c :: d :: e :: r => leftover r
  | _ => l
  end.

Definition low5 (c : ascii) : Z := charCodeAt0 c mod 32.

(** Six 5-bit symbols of a remainder, highest first. *)
Definition split6 (r : Z) : list Z :=
  map (fun i => (r / 2 ^ (5 * (5 - i))) mod 32) checksum_indices.

Definition spec_checksum (prefix : string) (groups : list Z) : list Z :=
  let feed :=
    map low5 (list_ascii_of_string (prefix ++ "1")%string)
    ++ groups ++ repeat 0 6%nat in
  let r := fold_left (fun p v => Int32.xor (bech32PolymodStep p) v) feed 1 in
  split6 (Z.lxor r 1).

Definition spec_encode (prefix : string) (data : list byte) : string :=
  let groups := spec_regroup data in
  (prefix ++ "1"
   ++ concat "" (map charset_at (groups ++ spec_checksum prefix groups)))%string.

Definition ascii_only (s : string) : bool :=
  forallb (fun c => (nat_of_ascii c <? 128)%nat) (list_ascii_of_string s).

End Bech32.

(** ** JavaScript values, exceptions and the host *)

Module JS.

#[local] Set Warnings "-register-all".

(** Numbers that are not used in bit operations: NaN or an integer.  The
    integers that stand for a JavaScript number are the doubles among
    them ([round53 z = z], below 2^1024 in magnitude); fractions and the
    infinities are outside the model. *)
Inductive number : Type :=
| NaN
| Num (z : Z).

(** *** Binary64 rounding *)

(** The double nearest to the integer [z], ties to even: an integer of
    up to 2^53 in magnitude is a double, a larger one keeps its 53
    leading bits. *)
Definition round53 (z : Z) : Z :=
  let a := Z.abs z in
  if a <=? 2 ^ 53 then z else
  let e := Z.log2 a - 52 in
  let q := a / 2 ^ e in
  let r := a mod 2 ^ e in
  let half := 2 ^ (e - 1) in
  let q' := if (half <? r) || ((r =? half) && Z.odd q) then q + 1 else q in
  Z.sgn z * (q' * 2 ^ e).

(** The double nearest to the quotient [n / d] of two integers, [d]
    positive, as a pair [(m, e)] that stands for m * 2^e: the exponent is
    floor(log2 |n / d|) - 52, the quotient at that scale is rounded to
    the nearest integer, ties to even.  (Quotients below 2^-1022 in
    magnitude, which are rounded otherwise, do not arise from an integer
    and the divisor 1000.) *)
Definition div64 (n d : Z) : Z * Z :=
  if n =? 0 then (0, 0) else
  let a := Z.abs n in
  let e := Z.log2 (a * 2 ^ 1100 / d) - 1100 - 52 in
  let num := if e <? 0 then a * 2 ^ (- e) else a in
  let den := if e <? 0 then d else d * 2 ^ e in
  let q := num / den in
  let r := num mod den in
  let m := if (den <? 2 * r) || ((2 * r =? den) && Z.odd q)
           then q + 1 else q in
  (Z.sgn n * m, e).

(** [x < m * 2^e] and [x > m * 2^e]. *)
Definition lt_dyadic (x : Z) (f : Z * Z) : bool :=
  let '(m, e) := f in
  if e <? 0 then x * 2 ^ (- e) <? m else x <? m * 2 ^ e.

Definition gt_dyadic (x : Z) (f : Z * Z) : bool :=
  let '(m, e) := f in
  if e <? 0 then m <? x * 2 ^ (- e) else m * 2 ^ e <? x.

(** *** Printing a number *)

(** The decimal digits of an integer. *)
Definition digits (z : Z) : string := NilZero.string_of_int (Z.to_int z).

(** The multiple of [p] nearest to [v] among the two next to it that
    round to the double [v], if there is one; of two equally near, the
    one with the even multiplier. *)
Definition nearest_multiple (v p : Z) : option Z :=
  let lo := v / p * p in
  let hi := lo + p in
  match round53 lo =? v, round53 hi =? v with
  | true, true =>
      Some (if v - lo <? hi - v then lo
            else if hi - v <? v - lo then hi
            else if Z.even (v / p) then lo else hi)
  | true, false => Some lo
  | false, true => Some hi
  | false, false => None
  end.

(** The decimal with the fewest significant digits that rounds to the
    double [v] (positive): multiples of [p], a power of ten, are tried
    from the largest power down. *)
Fixpoint shortest_from (fuel : nat) (v p : Z) : Z :=
  match fuel with
  | O => v
  | S fuel =>
      match nearest_multiple v p with
      | Some c => c
      | None => if p <=? 1 then v else shortest_from fuel v (p / 10)
      end
  end.

Definition shortest (v : Z) : Z :=
  let n := String.length (digits v) in
  shortest_from n v (10 ^ (Z.of_nat n - 1)).

Fixpoint strip_zeros (rev_digits : list ascii) : list ascii :=
  match rev_digits with
  | "0"%char :: rest => strip_zeros rest
  | _ => rev_digits
  end.

(** [d.ddde+N], the form of a number of 10^21 or more. *)
Definition exponent_form (c : Z) : string :=
  let ds := digits c in
  let N := digits (Z.of_nat (String.length ds) - 1) in
  match rev (strip_zeros (rev (list_ascii_of_string ds))) with
  | [] => ds
  | [d] => String d ("e+" ++ N)
  | d :: rest => String d ("." ++ string_of_list_ascii rest ++ "e+" ++ N)
  end.

(** [String(z)] for an integer: its digits up to 2^53 in magnitude; for
    a larger double the shortest decimal that rounds to it, in full below
    10^21 and in exponent form from there on. *)
Definition int_to_string (z : Z) : string :=
  let a := Z.abs z in
  if a <=? 2 ^ 53 then digits z else
  let c := shortest a in
  let text := if c <? 10 ^ 21 then digits c else exponent_form c in
  if z <? 0 then ("-" ++ text) else text.

(** Data as JSON carries it, plus [undefined]. *)
Inductive value : Type :=
| VUndefined
| VNull
| VBool (b : bool)
| VNum (n : number)
| VStr (s : string)
| VArr (items : list value)
| VObj (props : list (string * value)).

(** Thrown objects; every one of them is an [Error] with a message. *)
Inductive exn : Type :=
| TypeError (msg : string)
| SyntaxError (msg : string)
| Error (msg : string).

Definition message (e : exn) : string :=
  match e with
  | TypeError m | SyntaxError m | Error m => m
  end.

Inductive result (A : Type) : Type :=
| Ok (a : A)
| Throw (e : exn).
Arguments Ok {A} a.
Arguments Throw {A} e.

Definition bind {A B} (r : result A) (k : A -> result B) : result B :=
  match r with
  | Ok a => k a
  | Throw e => Throw e
  end.

(** [try { body } catch (error) { handler }] *)
Definition try_catch {A} (body : result A) (handler : exn -> result A)
  : result A :=
  match body with
  | Ok a => Ok a
  | Throw e => handler e
  end.

(** What the engine provides and the repository does not define. *)
Record Host : Type := {
  JSON_parse : string -> option value;       (* [None]: SyntaxError *)
  JSON_stringify : value -> string;
  objectToString : value -> string;          (* ToString of arrays, objects *)
  stringToNumber : string -> number;         (* ToNumber of a string *)
  objectToNumber : value -> number;          (* ToNumber of arrays, objects *)
  typeErrorText : string -> string;          (* message of a TypeError *)
  encodeURIComponent : string -> string;
  btoa : string -> string;
  (* [new URL(base)] followed by [searchParams.append] for each pair and
     [toString()]; an invalid base throws. *)
  urlWithParams : string -> list (string * string) -> result string
}.

Definition num_truthy (n : number) : bool :=
  match n with
  | NaN => false
  | Num z => negb (z =? 0)
  end.

Definition truthy (v : value) : bool :=
  match v with
  | VUndefined | VNull => false
  | VBool b => b
  | VNum n => num_truthy n
  | VStr s => negb (String.eqb s "")
  | VArr _ | VObj _ => true
  end.

Definition num_eq (a b : number) : bool :=
  match a, b with
  | Num x, Num y => x =? y
  | _, _ => false
  end.

(** [a === b] where at least one side is a primitive: values of
    different types differ, NaN differs from itself, and an array or an
    object is never identical to a primitive (two such values read from
    different places are different objects as well). *)
Definition strict_eq (a b : value) : bool :=
  match a, b with
  | VUndefined, VUndefined => true
  | VNull, VNull => true
  | VBool x, VBool y => Bool.eqb x y
  | VNum x, VNum y => num_eq x y
  | VStr x, VStr y => String.eqb x y
  | _, _ => false
  end.

(** An object is the list of its own properties; the first entry of a
    key is the property's value, an absent key reads [undefined]. *)
Fixpoint lookup (k : string) (props : list (string * value)) : value :=
  match props with
  | [] => VUndefined
  | (k', v) :: rest => if String.eqb k k' then v else lookup k rest
  end.

Section WithHost.
Context (host : Host).

(** [v.k] for a data property [k] that no prototype defines: reading
    from [undefined] or [null] throws, a primitive or an array has no
    such property. *)
Definition get (v : value) (k : string) : result value :=
  match v with
  | VUndefined | VNull => Throw (TypeError (typeErrorText host k))
  | VObj props => Ok (lookup k props)
  | _ => Ok VUndefined
  end.

(** [Array.prototype.find]. *)
Fixpoint find (p : value -> bool) (items : list value) : value :=
  match items with
  | [] => VUndefined
  | x :: rest => if p x then x else find p rest
  end.

(** [v.find(p)]: only an array has the method. *)
Definition call_find (v : value) (p : value -> bool) : result value :=
  match v with
  | VArr items => Ok (find p items)
  | _ => Throw (TypeError (typeErrorText host "find"))
  end.

(** [String(n)] *)
Definition num_to_string (n : number) : string :=
  match n with
  | NaN => "NaN"
  | Num z => int_to_string z
  end.

Definition to_string (v : value) : string :=
  match v with
  | VUndefined => "undefined"
  | VNull => "null"
  | VBool true => "true"
  | VBool false => "false"
  | VNum n => num_to_string n
  | VStr s => s
  | VArr _ | VObj _ => objectToString host v
  end.

Definition to_number (v : value) : number :=
  match v with
  | VUndefined => NaN
  | VNull => Num 0
  | VBool true => Num 1
  | VBool false => Num 0
  | VNum n => n
  | VStr s => stringToNumber host s
  | VArr _ | VObj _ => objectToNumber host v
  end.

End WithHost.

(** [a * b]: the exact product, rounded to the nearest double.  (A
    product of 2^1024 or more, which is Infinity, is outside the
    model.) *)
Definition num_mul (a b : number) : number :=
  match a, b with
  | Num x, Num y => Num (round53 (x * y))
  | _, _ => NaN
  end.

Definition num_sub (a b : number) : number :=
  match a, b with
  | Num x, Num y => Num (x - y)
  | _, _ => NaN
  end.

(** [a < b]; false as soon as a side is NaN. *)
Definition num_lt (a b : number) : bool :=
  match a, b with
  | Num x, Num y => x <? y
  | _, _ => false
  end.

(** [Math.floor(a / d)] for a positive integer constant [d]; the floor
    of the exact quotient, which is the floor of the rounded one for the
    clock readings and amounts it is applied to (below 2^53). *)
Definition floor_div (a : number) (d : Z) : number :=
  match a with
  | NaN => NaN
  | Num z => Num (z / d)
  end.

(** [a < b / d] and [a > b / d] for a positive integer constant [d]:
    the quotient is rounded to a double before it is compared; false as
    soon as a side is NaN. *)
Definition lt_quot (a b : number) (d : Z) : bool :=
  match a, b with
  | Num x, Num y => lt_dyadic x (div64 y d)
  | _, _ => false
  end.

Definition gt_quot (a b : number) (d : Z) : bool :=
  match a, b with
  | Num x, Num y => gt_dyadic x (div64 y d)
  | _, _ => false
  end.

(** *** [parseInt(s, 10)] *)

Definition is_space (c : ascii) : bool :=
  let n := nat_of_ascii c in
  ((9 <=? n) && (n <=? 13) || (n =? 32) || (n =? 160))%nat.

Definition digit_of (c : ascii) : option Z :=
  let n := nat_of_ascii c in
  if ((48 <=? n) && (n <=? 57))%nat then Some (Z.of_nat n - 48) else None.

Fixpoint skip_spaces (s : string) : string :=
  match s with
  | String c r => if is_space c then skip_spaces r else s
  | EmptyString => s
  end.

(** Longest run of decimal digits at the front of [s], read into [acc];
    [seen] tells whether a digit was met. *)
Fixpoint read_digits (s : string) (acc : Z) (seen : bool) : option Z :=
  match s with
  | String c r =>
      match digit_of c with
      | Some d => read_digits r (10 * acc + d) true
      | None => if seen then Some acc else None
      end
  | EmptyString => if seen then Some acc else None
  end.

Definition parseInt10_string (s : string) : number :=
  let s := skip_spaces s in
  let '(sign, s) :=
    match s with
    | String "-" r => (-1, r)
    | String "+" r => (1, r)
    | _ => (1, s)
    end in
  match read_digits s 0 false with
  | Some n => Num (sign * n)
  | None => NaN
  end.

Definition parseInt10 (host : Host) (v : value) : number :=
  parseInt10_string (to_string host v).

(** *** Small string helpers *)

Definition lower_ascii (c : ascii) : ascii :=
  let n := nat_of_ascii c in
  if ((65 <=? n) && (n <=? 90))%nat then ascii_of_nat (n + 32) else c.

Fixpoint toLowerCase (s : string) : string :=
  match s with
  | EmptyString => EmptyString
  | String c r => String (lower_ascii c) (toLowerCase r)
  end.

(** [s.replace(/c/g, '')] for a single character [c]. *)
Fixpoint remove_char (c : ascii) (s : string) : string :=
  match s with
  | EmptyString => EmptyString
  | String d r => if Ascii.eqb c d then remove_char c r
                  else String d (remove_char c r)
  end.

(** [s.split(c)] for a single-character separator: [cur] collects the
    piece being read. *)
Fixpoint split_go (c : ascii) (s : string) (cur : string) : list string :=
  match s with
  | EmptyString => [cur]
  | String d r =>
      if Ascii.eqb c d then cur :: split_go c r EmptyString
      else split_go c r (cur ++ String d EmptyString)%string
  end.

Definition split (c : ascii) (s : string) : list string :=
  split_go c s EmptyString.

(** Array destructuring [const [a, b] = parts]: a missing item is
    [undefined]. *)
Definition item (n : nat) (parts : list string) : value :=
  match nth_error parts n with
  | Some s => VStr s
  | None => VUndefined
  end.

End JS.

Module JSNotations.
Notation "x <- c1 ;; c2" := (JS.bind c1 (fun x => c2))
  (at level 61, c1 at next level, right associativity).
End JSNotations.

(** ** The relay manager (js/nostr-relay-manager.js) *)

Module NostrRelayManager.
Import JS JSNotations.

(** The part of [SATSNAKE_CONFIG] the relay manager reads. *)
Record config : Type := {
  recipientNostrPubkey : value
}.

(** Result objects of [validateZapRequest]:
    [{ valid: false, reason }] or [{ valid: true, amountMsats, amountSats }]. *)
Inductive zap_validation : Type :=
| ZInvalid (reason : string)
| ZValid (amountMsats amountSats : number).

(** Result objects of [validateZapReceipt]: [{ valid: false, reason }] or
    [{ valid: true, amountSats, senderPubkey, bolt11, zapRequest }]. *)
Inductive outcome : Type :=
| Invalid (reason : string)
| Valid (amountSats : number) (senderPubkey bolt11 zapRequest : value).

(** The object literal behind an outcome. *)
Definition outcome_object (o : outcome) : value :=
  match o with
  | Invalid reason =>
      VObj [("valid", VBool false); ("reason", VStr reason)]
  | Valid amountSats senderPubkey bolt11 zapRequest =>
      VObj [("valid", VBool true); ("amountSats", VNum amountSats);
            ("senderPubkey", senderPubkey); ("bolt11", bolt11);
            ("zapRequest", zapRequest)]
  end.

(** The subscription filter handed to NDK. *)
Record filter : Type := {
  kinds : list Z;
  authors : list value;
  since : number
}.

Section WithHost.
Context (host : Host) (cfg : config).

(** [event.tags.find(t => t === key)] *)
Definition find_tag (event : value) (key : string) : result value :=
  tags <- get host event "tags" ;;
  call_find host tags (fun t => strict_eq t (VStr key)).

Definition verifyEventSignature (event : value) : result bool :=
  id <- get host event "id" ;;
  if negb (truthy id) then Ok false else
  sig <- get host event "sig" ;;
  if negb (truthy sig) then Ok false else
  pubkey <- get host event "pubkey" ;;
  if negb (truthy pubkey) then Ok false else
  created_at <- get host event "created_at" ;;
  if negb (truthy created_at) then Ok false else
  kind <- get host event "kind" ;;
  Ok (negb (strict_eq kind VUndefined)).

Definition validateZapRequest (zapRequest : value)
           (expectedSessionId : string) (expectedAmountSats : number)
  : result zap_validation :=
  try_catch
    (kind <- get host zapRequest "kind" ;;
     if negb (strict_eq kind (VNum (Num 9734)))
     then Ok (ZInvalid "Invalid zap request kind") else
     amountTag <- find_tag zapRequest "amount" ;;
     if negb (truthy amountTag)
     then Ok (ZInvalid "No amount in zap request") else
     let amountMsats := parseInt10 host amountTag in
     let amountSats := floor_div amountMsats 1000 in
     if num_lt amountSats expectedAmountSats
     then Ok (ZInvalid ("Insufficient amount: "
                        ++ num_to_string amountSats ++ " < "
                        ++ num_to_string expectedAmountSats)%string) else
     recipientTag <- find_tag zapRequest "p" ;;
     if negb (truthy recipientTag)
        || negb (strict_eq recipientTag (recipientNostrPubkey cfg))
     then Ok (ZInvalid "Zap recipient mismatch") else
     Ok (ZValid amountMsats amountSats))
    (fun error => Ok (ZInvalid (message error))).

Definition validateZapReceipt (event : value) (gameSessionId : string)
           (expectedAmountSats : number) : result outcome :=
  try_catch
    (kind <- get host event "kind" ;;
     if negb (strict_eq kind (VNum (Num 9735)))
     then Ok (Invalid "Not a zap receipt (kind 9735)") else
     signed <- verifyEventSignature event ;;
     if negb signed then Ok (Invalid "Invalid event signature") else
     bolt11Tag <- find_tag event "bolt11" ;;
     descriptionTag <- find_tag event "description" ;;
     recipientTag <- find_tag event "p" ;;
     if negb (truthy bolt11Tag) || negb (truthy descriptionTag)
        || negb (truthy recipientTag)
     then Ok (Invalid "Missing required zap receipt tags") else
     let bolt11 := bolt11Tag in
     let descriptionEventJson := descriptionTag in
     if negb (strict_eq recipientTag (recipientNostrPubkey cfg))
     then Ok (Invalid "Recipient mismatch") else
     match JSON_parse host (to_string host descriptionEventJson) with
     | None => Ok (Invalid "Invalid zap request JSON")
     | Some zapRequest =>
         zapValidation <-
           validateZapRequest zapRequest gameSessionId expectedAmountSats ;;
         match zapValidation with
         | ZInvalid reason => Ok (Invalid reason)
         | ZValid amountMsats _ =>
             let amountSats := floor_div amountMsats 1000 in
             senderPubkey <- get host zapRequest "pubkey" ;;
             Ok (Valid amountSats senderPubkey bolt11 zapRequest)
         end
     end)
    (fun error => Ok (Invalid (message error))).

(** The filter built by [listenForZapReceipt]; [now_ms] is the value of
    [Date.now()]. *)
Definition zapReceiptFilter (now_ms : Z) : filter :=
  let now := floor_div (Num now_ms) 1000 in
  {| kinds := [9735];
     authors := [recipientNostrPubkey cfg];
     since := num_sub now (Num 60) |}.

(** [listenForZapReceipt] up to the call of [this.ndk.subscribe]: the
    promise resolves with the subscription made for the filter, or
    rejects when [this.ndk] is still [null] or [subscribe] throws.
    [ndk] is the subscribe capability. *)
Definition listenForZapReceipt {Sub : Type}
           (ndk : option (filter -> result Sub)) (now_ms : Z)
  : result (filter * Sub) :=
  let flt := zapReceiptFilter now_ms in
  match ndk with
  | None => Throw (TypeError (typeErrorText host "subscribe"))
  | Some subscribe => sub <- subscribe flt ;; Ok (flt, sub)
  end.

(** The object handed to [onZapReceived]. *)
Record zap_details : Type := {
  zd_valid : bool;
  zd_amountSats : number;
  zd_senderPubkey : value;
  zd_bolt11 : value;
  zd_eventId : value;
  zd_timestamp : value
}.

(** What the subscription handler of [listenForZapReceipt] does with one
    event: [Some details] when [onZapReceived] is called with them (and
    the subscription is closed next), [None] when the event is only
    logged. *)
Definition onRelayEvent (event : value) (gameSessionId : string)
           (expectedAmountSats : number) : result (option zap_details) :=
  validation <- validateZapReceipt event gameSessionId expectedAmountSats ;;
  match validation with
  | Valid amountSats senderPubkey bolt11 _ =>
      eventId <- get host event "id" ;;
      timestamp <- get host event "created_at" ;;
      Ok (Some {| zd_valid := true;
                  zd_amountSats := amountSats;
                  zd_senderPubkey := senderPubkey;
                  zd_bolt11 := bolt11;
                  zd_eventId := eventId;
                  zd_timestamp := timestamp |})
  | Invalid _ => Ok None
  end.

End WithHost.

(** The item that [tags.find(t => t === key)] returns. *)
Definition lookup_tag (tags : list value) (key : string) : value :=
  find (fun t => strict_eq t (VStr key)) tags.

(** Tags in the shape [createZapRequest] builds them and NIP-57
    prescribes: every tag is itself an array, [[key, value, ...]]. *)
Definition is_array (v : value) : bool :=
  match v with
  | VArr _ => true
  | _ => false
  end.

(** Filter semantics of the relay (not code of the repository), as the
    interface description gives it: [since] is a lower bound on the event
    timestamp. *)
Definition admits_since (f : filter) (created_at : Z) : bool :=
  match since f with
  | Num s => s <=? created_at
  | NaN => false
  end.

End NostrRelayManager.

(** ** Effects: network reads, the clock and the random source *)

Module Effects.
Import JS.

(** What a call of [fetch] yields: a rejected promise, or a response with
    its [ok] flag, its status and the outcome of [response.json()]. *)
Inductive fetch_result : Type :=
| NetworkError (e : exn)
| Response (ok : bool) (status : Z) (body : result value).

(** The outside world: the answer to the [n]-th network call, the
    [n]-th reading of [Date.now()] and the [n]-th random suffix
    [Math.random().toString(36).substr(2, 9)]. *)
Record env : Type := {
  net : nat -> string -> fetch_result;
  clock : nat -> Z;
  random36 : nat -> string
}.

Record world : Type := {
  fetched : list string;      (* URLs requested so far, oldest first *)
  clock_reads : nat;
  random_reads : nat
}.

Definition fresh_world : world :=
  {| fetched := []; clock_reads := 0; random_reads := 0 |}.

(** State and exception monad over a state [S]. *)
Definition M (S A : Type) : Type := S -> result A * S.

Definition ret {S A} (a : A) : M S A := fun s => (Ok a, s).

Definition throw {S A} (e : exn) : M S A := fun s => (Throw e, s).

Definition bindM {S A B} (m : M S A) (k : A -> M S B) : M S B :=
  fun s => match m s with
           | (Ok a, s') => k a s'
           | (Throw e, s') => (Throw e, s')
           end.

Definition lift {S A} (r : result A) : M S A := fun s => (r, s).

(** [try { body } catch (error) { handler }]: the writes of [body]
    made before the throw stay. *)
Definition try_catchM {S A} (body : M S A) (handler : exn -> M S A)
  : M S A :=
  fun s => match body s with
           | (Ok a, s') => (Ok a, s')
           | (Throw e, s') => handler e s'
           end.

Section WithEnv.
Context (E : env).

Definition fetch (url : string) : M world (bool * Z * result value) :=
  fun w =>
    let w' := {| fetched := fetched w ++ [url];
                 clock_reads := clock_reads w;
                 random_reads := random_reads w |} in
    match net E (List.length (fetched w)) url with
    | NetworkError e => (Throw e, w')
    | Response ok status body => (Ok (ok, status, body), w')
    end.

Definition Date_now : M world Z :=
  fun w => (Ok (clock E (clock_reads w)),
            {| fetched := fetched w;
               clock_reads := S (clock_reads w);
               random_reads := random_reads w |}).

Definition Math_random36 : M world string :=
  fun w => (Ok (random36 E (random_reads w)),
            {| fetched := fetched w;
               clock_reads := clock_reads w;
               random_reads := S (random_reads w) |}).

End WithEnv.

End Effects.

Module EffectNotations.
Notation "x <~ c1 ;; c2" := (Effects.bindM c1 (fun x => c2))
  (at level 61, c1 at next level, right associativity).
Notation "c1 ;;; c2" := (Effects.bindM c1 (fun _ => c2))
  (at level 61, right associativity).
End EffectNotations.

(** ** The tip manager (js/lightning/LightningPaymentManager.js) *)

Module LightningPaymentManager.
Import JS Effects EffectNotations.

Definition lnurlEndpoint : string :=
  "https://primal.net/.well-known/lnurlp/mustardmoose1".
Definition lightningAddress : string := "mustardmoose1@primal.net".

(** [new TextEncoder().encode(s)] for ASCII text. *)
Definition encode_ascii (s : string) : list byte :=
  map byte_of_ascii (list_ascii_of_string s).

Definition lnurlToBech32 (url : string) : string :=
  Bech32.bech32Encode "lnurl" (encode_ascii (toLowerCase url)).

Inductive payment_data : Type :=
| Success (lnurl : value) (bech32Lnurl : string) (address : string)
          (amountSats : number) (sessionId : string)
| Failure (error : string).

Section WithHost.
Context (host : Host) (E : env).

Definition initiatePayment (amountSats : number) (sessionId : string)
  : M world payment_data :=
  try_catchM
    (response <~ fetch E lnurlEndpoint ;;
     let '(ok, status, body) := response in
     if negb ok
     then throw (Error ("LNURL fetch failed: "
                        ++ num_to_string (Num status))%string) else
     lnurlData <~ lift body ;;
     minSendable <~ lift (get host lnurlData "minSendable") ;;
     outside <~
       (if lt_quot amountSats (to_number host minSendable) 1000
        then ret true
        else maxSendable <~ lift (get host lnurlData "maxSendable") ;;
             ret (gt_quot amountSats (to_number host maxSendable) 1000)) ;;
     if (outside : bool)
     then throw (Error ("Amount " ++ num_to_string amountSats
                        ++ " sats is outside allowed range")%string) else
     (* the callback is not called any more; only a URI is built *)
     tag <~ lift (get host lnurlData "tag") ;;
     let bech32Lnurl := lnurlToBech32 lnurlEndpoint in
     ret (Success lnurlData bech32Lnurl lightningAddress
                  amountSats sessionId))
    (fun err => ret (Failure (message err))).

End WithHost.

End LightningPaymentManager.

(** ** The Lightning payment UI manager (LNURL negotiation flow) *)

Module LightningPaymentUI.
Import JS Effects EffectNotations.

Record config : Type := {
  recipientLightningAddress : string;
  minPaymentSats : number;
  relays : list string
}.

Record session : Type := {
  id : string;
  amountSats : number;
  amountMsats : number;
  invoice : value;
  zapRequest : value;
  createdAt : Z
}.

(** The fields of the manager object. *)
Record manager : Type := {
  paymentInProgress : bool;
  currentSession : option session
}.

(** The constructor. *)
Definition new_manager : manager :=
  {| paymentInProgress := false; currentSession := None |}.

Definition state : Type := manager * world.

Record payment_result : Type := {
  pr_invoice : value;
  pr_amountSats : number;
  pr_sessionId : string
}.

Definition on_world {A} (m : M world A) : M state A :=
  fun s => let '(r, w) := m (snd s) in (r, (fst s, w)).

Definition read_paymentInProgress : M state bool :=
  fun s => (Ok (paymentInProgress (fst s)), s).

Definition set_paymentInProgress (b : bool) : M state unit :=
  fun s => (Ok tt, ({| paymentInProgress := b;
                       currentSession := currentSession (fst s) |}, snd s)).

Definition set_currentSession (c : option session) : M state unit :=
  fun s => (Ok tt, ({| paymentInProgress := paymentInProgress (fst s);
                       currentSession := c |}, snd s)).

Section WithHost.
Context (host : Host) (E : env) (cfg : config).

Definition generateSessionId : M world string :=
  now <~ Date_now E ;;
  rnd <~ Math_random36 E ;;
  ret ("satsnake-" ++ num_to_string (Num now) ++ "-" ++ rnd)%string.

Definition encodeLnurl (url : string) : string :=
  ("lnurl1" ++ toLowerCase (remove_char "=" (btoa host url)))%string.

(** [const [username, domain] = address.split('@')] *)
Definition username : value :=
  item 0 (split "@" (recipientLightningAddress cfg)).
Definition domain : value :=
  item 1 (split "@" (recipientLightningAddress cfg)).

(** The well-known lookup address. *)
Definition lnurlp_url : string :=
  ("https://" ++ to_string host domain ++ "/.well-known/lnurlp/"
   ++ to_string host username)%string.

Definition fetchLnurlMetadata : M world value :=
  try_catchM
    (let url := lnurlp_url in
     response <~ fetch E url ;;
     let '(ok, status, body) := response in
     if negb ok
     then throw (Error ("HTTP " ++ num_to_string (Num status))%string) else
     data <~ lift body ;;
     status <~ lift (get host data "status") ;;
     if strict_eq status (VStr "ERROR")
     then reason <~ lift (get host data "reason") ;;
          throw (Error (if truthy reason then to_string host reason
                        else "LNURL error")) else
     callback <~ lift (get host data "callback") ;;
     if negb (truthy callback)
     then throw (Error "No callback URL in LNURL response") else
     let lnurl := encodeLnurl url in
     (* { ...data, lnurl, domain, username }: only an object reaches
        this point, later keys win *)
     let own := match data with VObj props => props | _ => [] end in
     ret (VObj (("lnurl", VStr lnurl) :: ("domain", domain)
                :: ("username", username) :: own)))
    (fun error => ret VNull).

Definition createZapRequest (sessionId : string) (amountSats : number)
           (recipientPubkey : value) : M world value :=
  now_ms <~ Date_now E ;;
  let now := floor_div (Num now_ms) 1000 in
  let amountMsats := num_mul amountSats (Num 1000) in
  ret (VObj
         [("kind", VNum (Num 9734));
          ("content", VStr ("SatSnake game session: " ++ sessionId)%string);
          ("pubkey", VStr "");
          ("created_at", VNum now);
          ("tags",
            VArr [VArr (VStr "relays" :: map VStr (relays cfg));
                  VArr [VStr "amount"; VStr (num_to_string amountMsats)];
                  VArr [VStr "lnurl";
                        VStr (recipientLightningAddress cfg)];
                  VArr [VStr "p"; recipientPubkey]])]).

(** The query parameters appended to the callback URL. *)
Definition callback_params (amountMsats : number)
           (zapRequest lnurl : value) : list (string * string) :=
  let zapRequestJson := JSON_stringify host zapRequest in
  let encodedZapRequest := encodeURIComponent host zapRequestJson in
  [("amount", num_to_string amountMsats); ("nostr", encodedZapRequest)]
  ++ (if truthy lnurl then [("lnurl", to_string host lnurl)] else []).

Definition getInvoiceFromCallback (callback : value) (amountMsats : number)
           (zapRequest lnurl : value) : M world value :=
  try_catchM
    (callbackUrl <~
       lift (urlWithParams host (to_string host callback)
               (callback_params amountMsats zapRequest lnurl)) ;;
     response <~ fetch E callbackUrl ;;
     let '(ok, status, body) := response in
     if negb ok
     then throw (Error ("HTTP " ++ num_to_string (Num status))%string) else
     data <~ lift body ;;
     status <~ lift (get host data "status") ;;
     if strict_eq status (VStr "ERROR")
     then reason <~ lift (get host data "reason") ;;
          throw (Error (if truthy reason then to_string host reason
                        else "Callback error")) else
     pr <~ lift (get host data "pr") ;;
     if negb (truthy pr)
     then throw (Error "No invoice (pr) in callback response") else
     ret pr)
    (fun error => ret VNull).

(** [amountSats || this.config.minPaymentSats] *)
Definition amount_or_default (amountSats : option number) : number :=
  match amountSats with
  | Some n => if num_truthy n then n else minPaymentSats cfg
  | None => minPaymentSats cfg
  end.

(** [initiatePayment(amountSats = null)]; [None] is [null]. *)
Definition initiatePayment (amountSats : option number)
  : M state (option payment_result) :=
  try_catchM
    (busy <~ read_paymentInProgress ;;
     if busy then ret None else
     let amount := amount_or_default amountSats in
     set_paymentInProgress true ;;;
     sessionId <~ on_world generateSessionId ;;
     let amountMsats := num_mul amount (Num 1000) in
     lnurlData <~ on_world fetchLnurlMetadata ;;
     if negb (truthy lnurlData)
     then throw (Error "Failed to fetch LNURL metadata") else
     allowsNostr <~ lift (get host lnurlData "allowsNostr") ;;
     if negb (truthy allowsNostr)
     then throw (Error
            "Lightning Address does not support Nostr zaps (NIP-57)") else
     nostrPubkey <~ lift (get host lnurlData "nostrPubkey") ;;
     zapRequest <~ on_world (createZapRequest sessionId amount nostrPubkey) ;;
     callback <~ lift (get host lnurlData "callback") ;;
     lnurl <~ lift (get host lnurlData "lnurl") ;;
     invoice <~ on_world
       (getInvoiceFromCallback callback amountMsats zapRequest lnurl) ;;
     if negb (truthy invoice)
     then throw (Error "Failed to get invoice from LNURL") else
     createdAt <~ on_world (Date_now E) ;;
     set_currentSession
       (Some {| id := sessionId;
                amountSats := amount;
                amountMsats := amountMsats;
                invoice := invoice;
                zapRequest := zapRequest;
                createdAt := createdAt |}) ;;;
     ret (Some {| pr_invoice := invoice;
                  pr_amountSats := amount;
                  pr_sessionId := sessionId |}))
    (fun error => set_paymentInProgress false ;;; ret None).

End WithHost.

(** What "no callback URL" means for a parsed response: reading the
    field throws, or yields a falsy value. *)
Definition lacks_callback (host : Host) (data : value) : bool :=
  match get host data "callback" with
  | Ok callback => negb (truthy callback)
  | Throw _ => true
  end.

(** [completePayment()]: returns [this.currentSession?.id]. *)
Definition completePayment (m : manager) : option string * manager :=
  (option_map id (currentSession m),
   {| paymentInProgress := false; currentSession := None |}).

Definition resetPayment (m : manager) : manager :=
  {| paymentInProgress := false; currentSession := None |}.

(** The operations of the manager as transitions of its fields, each
    taken as a whole, for any host, any outside world and any argument. *)
Inductive step (cfg : config) : manager -> manager -> Prop :=
| step_initiate host E amountSats m w r m' w' :
    initiatePayment host E cfg amountSats (m, w) = (r, (m', w')) ->
    step cfg m m'
| step_complete m : step cfg m (snd (completePayment m))
| step_reset m : step cfg m (resetPayment m).

Inductive reachable (cfg : config) : manager -> Prop :=
| reachable_new : reachable cfg new_manager
| reachable_step m m' :
    reachable cfg m -> step cfg m m' -> reachable cfg m'.

(** What holds of the fields between operations: a stored session
    implies that the in-progress flag is set, and its two amounts agree. *)
Definition session_inv (m : manager) : Prop :=
  (forall s, currentSession m = Some s -> paymentInProgress m = true)
  /\ (forall s, currentSession m = Some s ->
                amountMsats s = num_mul (amountSats s) (Num 1000)).

End LightningPaymentUI.

(** ** The game's payment listener (class SatSnakeGame) *)

Module SatSnakeGame.
Import JS.

Definition zapReceiptTimeout : Z := 60000.

(** The fields and page elements that the payment listener touches. *)
Record game : Type := {
  paymentManager : LightningPaymentUI.manager;
  gameUnlocked : bool;
  paymentStatus : string;        (* text of #payment-status *)
  waitingShown : bool;           (* #waiting-section is displayed *)
  timeoutArmed : bool;           (* the timer of listenForPayment is pending *)
  (* the live relay subscription, with the arguments its handler closes
     over *)
  subscription : option (string * number)
}.

Definition set_status (g : game) (msg : string) : game :=
  {| paymentManager := paymentManager g;
     gameUnlocked := gameUnlocked g;
     paymentStatus := msg;
     waitingShown := waitingShown g;
     timeoutArmed := timeoutArmed g;
     subscription := subscription g |}.

(** [resetPaymentUI()]: the buttons come back, the waiting section and
    the QR code go. *)
Definition resetPaymentUI (g : game) : game :=
  {| paymentManager := paymentManager g;
     gameUnlocked := gameUnlocked g;
     paymentStatus := paymentStatus g;
     waitingShown := false;
     timeoutArmed := timeoutArmed g;
     subscription := subscription g |}.

Definition set_timeoutArmed (g : game) (b : bool) : game :=
  {| paymentManager := paymentManager g;
     gameUnlocked := gameUnlocked g;
     paymentStatus := paymentStatus g;
     waitingShown := waitingShown g;
     timeoutArmed := b;
     subscription := subscription g |}.

Definition set_subscription (g : game) (s : option (string * number))
  : game :=
  {| paymentManager := paymentManager g;
     gameUnlocked := gameUnlocked g;
     paymentStatus := paymentStatus g;
     waitingShown := waitingShown g;
     timeoutArmed := timeoutArmed g;
     subscription := s |}.

(** [unlockGame()] *)
Definition unlockGame (g : game) : game :=
  {| paymentManager := snd (LightningPaymentUI.completePayment
                              (paymentManager g));
     gameUnlocked := true;
     paymentStatus := paymentStatus g;
     waitingShown := waitingShown g;
     timeoutArmed := timeoutArmed g;
     subscription := subscription g |}.

Section WithHost.
Context (host : Host) (cfg : NostrRelayManager.config).

(** [listenForPayment]: arm the timer, then subscribe. *)
Definition listenForPayment {Sub : Type}
           (ndk : option (NostrRelayManager.filter -> result Sub))
           (now_ms : Z) (sessionId : string) (expectedAmountSats : number)
           (g : game) : game :=
  let g := set_timeoutArmed g true in
  match NostrRelayManager.listenForZapReceipt host cfg ndk now_ms with
  | Ok _ => set_subscription g (Some (sessionId, expectedAmountSats))
  | Throw error =>
      set_status g ("Error listening for payment: " ++ message error)%string
  end.

(** The callback given to [setTimeout]. *)
Definition onTimeout (g : game) : game :=
  if timeoutArmed g
  then set_timeoutArmed
         (resetPaymentUI
            (set_status g "Payment timeout. Please try again."))
         false
  else g.

(** The callback given to [listenForZapReceipt].  (Starting the game
    loop and hiding the overlay, which follow the unlocking, are outside
    this model.) *)
Definition onZapReceived (d : NostrRelayManager.zap_details) (g : game)
  : game :=
  let g := set_timeoutArmed g false in      (* clearTimeout(timeout) *)
  if NostrRelayManager.zd_valid d
  then unlockGame
         (set_status g ("✓ Payment confirmed! ("
                        ++ num_to_string (NostrRelayManager.zd_amountSats d)
                        ++ " sats)")%string)
  else set_status g "Invalid payment received.".

(** An event pushed by the relay: handled only while the subscription
    is live; a valid receipt confirms and closes the subscription. *)
Definition onRelayEvent (event : value) (g : game) : game :=
  match subscription g with
  | None => g
  | Some (sessionId, expectedAmountSats) =>
      match NostrRelayManager.onRelayEvent host cfg event sessionId
                                           expectedAmountSats with
      | Ok (Some d) => set_subscription (onZapReceived d g) None
      | _ => g
      end
  end.

End WithHost.

End SatSnakeGame.

(** ** A host for running the model on concrete inputs

    The statements proved for every host do not depend on it.  Its JSON
    reader knows the three literals only and rejects every other text;
    the remaining services are the simplest ones of the right type. *)

Module SampleHost.
Import JS.

Definition parse_literal (s : string) : option value :=
  if String.eqb s "null" then Some VNull
  else if String.eqb s "true" then Some (VBool true)
  else if String.eqb s "false" then Some (VBool false)
  else None.

Fixpoint query (params : list (string * string)) : string :=
  match params with
  | [] => ""
  | [(k, v)] => (k ++ "=" ++ v)%string
  | (k, v) :: rest => (k ++ "=" ++ v ++ "&" ++ query rest)%string
  end.

Definition host : Host :=
  {| JSON_parse := parse_literal;
     JSON_stringify := fun _ => "{}";
     objectToString := fun _ => "[object Object]";
     stringToNumber := parseInt10_string;
     objectToNumber := fun _ => NaN;
     typeErrorText := fun k => ("Cannot read property " ++ k)%string;
     encodeURIComponent := fun s => s;
     btoa := fun s => s;
     urlWithParams :=
       fun base params => Ok (base ++ "?" ++ query params)%string |}.

End SampleHost.

(** ** Concrete inputs *)

Module Samples.
Import JS Effects.

Definition relay_cfg : NostrRelayManager.config :=
  {| NostrRelayManager.recipientNostrPubkey := VStr "npub-of-recipient" |}.

(** A zap request of the shape [createZapRequest] builds, asking for
    [msats]. *)
Definition zap_request (msats : string) : value :=
  VObj [("kind", VNum (Num 9734));
        ("content", VStr "SatSnake game session: s1");
        ("pubkey", VStr "sender");
        ("created_at", VNum (Num 1700000000));
        ("tags", VArr [VArr [VStr "relays"; VStr "wss://nos.lol"];
                       VArr [VStr "amount"; VStr msats];
                       VArr [VStr "lnurl"; VStr "mustardmoose1@primal.net"];
                       VArr [VStr "p"; VStr "npub-of-recipient"]])].

(** A signed receipt whose tag list is [tags]. *)
Definition receipt (tags : list value) : value :=
  VObj [("kind", VNum (Num 9735));
        ("id", VStr "e1");
        ("sig", VStr "sig");
        ("pubkey", VStr "npub-of-recipient");
        ("created_at", VNum (Num 1700000010));
        ("tags", VArr tags)].

Definition payment_cfg : LightningPaymentUI.config :=
  {| LightningPaymentUI.recipientLightningAddress := "alice@example.com";
     LightningPaymentUI.minPaymentSats := Num 100;
     LightningPaymentUI.relays := ["wss://relay.damus.io"; "wss://nos.lol"] |}.

(** Provider metadata with the given sendable bounds (in msats). *)
Definition metadata (minSendable maxSendable : Z) : value :=
  VObj [("callback", VStr "https://example.com/cb");
        ("minSendable", VNum (Num minSendable));
        ("maxSendable", VNum (Num maxSendable));
        ("tag", VStr "payRequest");
        ("allowsNostr", VBool true);
        ("nostrPubkey", VStr "npub-of-recipient")].

(** Provider metadata without the sendable bounds. *)
Definition metadata_without_bounds : value :=
  VObj [("callback", VStr "https://example.com/cb");
        ("tag", VStr "payRequest");
        ("allowsNostr", VBool true)].

(** A provider that answers the first request with [first] and every
    later one with an invoice. *)
Definition provider (first : value) : env :=
  {| net := fun n _ =>
              match n with
              | O => Response true 200 (Ok first)
              | _ => Response true 200 (Ok (VObj [("pr", VStr "lnbc1u1p0")]))
              end;
     clock := fun n => 1700000000000 + Z.of_nat n;
     random36 := fun _ => "k3x9q2m1z" |}.

(** The manager after one negotiation with a provider that takes 1 to
    500 sats, started without an amount (so for [minPaymentSats]). *)
Definition negotiated : LightningPaymentUI.manager :=
  fst (snd (LightningPaymentUI.initiatePayment
              SampleHost.host (provider (metadata 1000 500000)) payment_cfg
              None (LightningPaymentUI.new_manager, fresh_world))).

(** The game while it waits for a receipt. *)
Definition awaiting_game : SatSnakeGame.game :=
  {| SatSnakeGame.paymentManager := negotiated;
     SatSnakeGame.gameUnlocked := false;
     SatSnakeGame.paymentStatus := "";
     SatSnakeGame.waitingShown := true;
     SatSnakeGame.timeoutArmed := true;
     SatSnakeGame.subscription :=
       Some ("satsnake-1700000000000-k3x9q2m1z", Num 100) |}.

End Samples.

(** ** Setting up the relay manager (js/nostr-relay-manager.js) *)

Module NostrRelaySetup.
Import JS Effects EffectNotations.

(** The fields of the relay manager that its set-up writes: whether
    [this.ndk] holds an NDK instance, [this.recipientPubkey], and the
    shared configuration object. *)
Record relay : Type := {
  ndk_set : bool;
  recipientPubkey : value;
  config : NostrRelayManager.config
}.

(** The constructor. *)
Definition new_relay (cfg : NostrRelayManager.config) : relay :=
  {| ndk_set := false; recipientPubkey := VNull; config := cfg |}.

Definition state : Type := relay * world.

Definition on_world {A} (m : M world A) : M state A :=
  fun s => let '(r, w) := m (snd s) in (r, (fst s, w)).

(** [this.recipientPubkey = key; this.config.recipientNostrPubkey = key] *)
Definition store_pubkey (key : value) : M state unit :=
  fun s =>
    (Ok tt,
     ({| ndk_set := ndk_set (fst s);
         recipientPubkey := key;
         config := {| NostrRelayManager.recipientNostrPubkey := key |} |},
      snd s)).

(** [this.ndk = new NDK(...)] *)
Definition store_ndk : M state unit :=
  fun s =>
    (Ok tt,
     ({| ndk_set := true;
         recipientPubkey := recipientPubkey (fst s);
         config := config (fst s) |},
      snd s)).

Section WithHost.
Context (host : Host) (E : env).

(** The well-known lookup address of [address]. *)
Definition lnurlp_url (address : string) : string :=
  let username := item 0 (split "@" address) in
  let domain := item 1 (split "@" address) in
  ("https://" ++ to_string host domain ++ "/.well-known/lnurlp/"
   ++ to_string host username)%string.

(** [resolveRecipientPubkey()]; [address] is
    [this.config.recipientLightningAddress]. *)
Definition resolveRecipientPubkey (address : string) : M state value :=
  try_catchM
    (response <~ on_world (fetch E (lnurlp_url address)) ;;
     let '(ok, status, body) := response in
     if negb ok
     then throw (Error ("Failed to fetch LNURL metadata: "
                        ++ num_to_string (Num status))%string) else
     lnurlData <~ lift body ;;
     nostrPubkey <~ lift (get host lnurlData "nostrPubkey") ;;
     if truthy nostrPubkey
     then store_pubkey nostrPubkey ;;; ret nostrPubkey
     else ret VNull)
    (fun error => ret VNull).

(** [initialize()]; [newNDK] is the outcome of the NDK constructor and
    [connect] that of [this.ndk.connect(relayTimeout)], both services of
    the NDK library. *)
Definition initialize (newNDK connect : result unit) (address : string)
  : M state bool :=
  try_catchM
    (lift newNDK ;;;
     store_ndk ;;;
     lift connect ;;;
     resolveRecipientPubkey address ;;;
     ret true)
    (fun error => ret false).

End WithHost.

End NostrRelaySetup.

(** ** The game's payment flow (class SatSnakeGame) *)

Module GameFlow.
Import JS Effects EffectNotations SatSnakeGame.

Definition set_paymentManager (g : game) (m : LightningPaymentUI.manager)
  : game :=
  {| paymentManager := m;
     gameUnlocked := gameUnlocked g;
     paymentStatus := paymentStatus g;
     waitingShown := waitingShown g;
     timeoutArmed := timeoutArmed g;
     subscription := subscription g |}.

(** The buttons go, the waiting section shows. *)
Definition showWaiting (g : game) : game :=
  {| paymentManager := paymentManager g;
     gameUnlocked := gameUnlocked g;
     paymentStatus := paymentStatus g;
     waitingShown := true;
     timeoutArmed := timeoutArmed g;
     subscription := subscription g |}.

(** What [initiatePayment] of the game leaves behind: the alert it
    raised, if any, the game and the world. *)
Record flow_result : Type := {
  alert : option string;
  after : game;
  world_after : world
}.

Section WithHost.
Context (host : Host) (E : env)
        (payment_cfg : LightningPaymentUI.config)
        (relay_cfg : NostrRelayManager.config).

(** [initiatePayment()] of the game: ask the payment manager for an
    invoice, show it, and start listening.  [ndk] is the subscribe
    capability of the relay manager.  (Drawing the QR code and filling the
    amount and copy button are outside this model.) *)
Definition initiatePayment {Sub : Type}
           (ndk : option (NostrRelayManager.filter -> result Sub))
           (g : game) (w : world) : flow_result :=
  match LightningPaymentUI.initiatePayment host E payment_cfg None
          (paymentManager g, w) with
  | (Ok None, (m, w')) =>
      {| alert := Some "Failed to create payment. Please try again.";
         after := set_paymentManager g m;
         world_after := w' |}
  | (Ok (Some paymentResult), (m, w')) =>
      let g := showWaiting (set_paymentManager g m) in
      let '(now, w'') := Date_now E w' in
      match now with
      | Ok now_ms =>
          {| alert := None;
             after := listenForPayment host relay_cfg ndk now_ms
                        (LightningPaymentUI.pr_sessionId paymentResult)
                        (LightningPaymentUI.pr_amountSats paymentResult) g;
             world_after := w'' |}
      | Throw error =>
          {| alert := Some ("Error initiating payment: " ++ message error)%string;
             after := g;
             world_after := w'' |}
      end
  | (Throw error, (m, w')) =>
      {| alert := Some ("Error initiating payment: " ++ message error)%string;
         after := set_paymentManager g m;
         world_after := w' |}
  end.

(** What reaches the game while it waits. *)
Inductive input : Type :=
| RelayEvent (event : value)
| TimerFires.

Definition deliver (g : game) (i : input) : game :=
  match i with
  | RelayEvent event => onRelayEvent host relay_cfg event g
  | TimerFires => onTimeout g
  end.

End WithHost.

End GameFlow.

(* ===================================================================== *)
(** * Part II: the properties                                            *)
(* ===================================================================== *)

(** ** 32-bit operators *)

Module Int32Facts.
Import Int32.

Lemma wrap_congr (x : Z) : exists q, wrap x = x + q * 2 ^ 32.
Proof.
  unfold wrap.
  exists (- ((x + 2 ^ 31) / 2 ^ 32)).
  pose proof (Z.div_mod (x + 2 ^ 31) (2 ^ 32) ltac:(lia)). lia.
Qed.

Lemma wrap_mod (x k : Z) :
  0 <= k <= 32 -> wrap x mod 2 ^ k = x mod 2 ^ k.
Proof.
  intros Hk. destruct (wrap_congr x) as [q ->].
  replace (2 ^ 32) with (2 ^ (32 - k) * 2 ^ k)
    by (rewrite <- Z.pow_add_r by lia; f_equal; lia).
  rewrite Z.mul_assoc. apply Z_mod_plus_full.
Qed.

Lemma wrap_small (x : Z) : - 2 ^ 31 <= x < 2 ^ 31 -> wrap x = x.
Proof.
  intros H. unfold wrap. rewrite Z.mod_small; lia.
Qed.

Lemma wrap_range (x : Z) : - 2 ^ 31 <= wrap x < 2 ^ 31.
Proof.
  unfold wrap. pose proof (Z.mod_pos_bound (x + 2 ^ 31) (2 ^ 32) ltac:(lia)).
  lia.
Qed.

Lemma wrap_wrap (x : Z) : wrap (wrap x) = wrap x.
Proof. apply wrap_small, wrap_range. Qed.

Lemma and_31 (x : Z) : and x 31 = x mod 32.
Proof.
  unfold and. rewrite (wrap_small 31) by lia.
  change 31 with (Z.ones 5). rewrite Z.land_ones by lia.
  apply (wrap_mod x 5); lia.
Qed.

(** Bits [k .. k+4] of [x], as [(x >> k) & 31] computes them. *)
Lemma and_sar_31 (x k : Z) :
  0 <= k <= 27 -> and (sar x k) 31 = (x mod 2 ^ (k + 5)) / 2 ^ k.
Proof.
  intros Hk. rewrite and_31. change 32 with (2 ^ 5) at 1. unfold sar.
  rewrite (Z.mod_small k 32) by lia.
  rewrite Z.shiftr_div_pow2 by lia.
  rewrite <- (wrap_mod x (k + 5)) by lia.
  rewrite Z.pow_add_r by lia.
  rewrite Z.rem_mul_r by lia.
  rewrite (Z.mul_comm (2 ^ k)), Z.div_add by lia.
  rewrite (Z.div_small (wrap x mod 2 ^ k)); [lia|].
  apply Z.mod_pos_bound; lia.
Qed.

Lemma shl_mod (x j k : Z) :
  0 <= j < 32 -> 0 <= k <= 32 -> shl x j mod 2 ^ k = (x * 2 ^ j) mod 2 ^ k.
Proof.
  intros Hj Hk. unfold shl. rewrite (Z.mod_small j 32) by lia.
  rewrite wrap_mod by lia. rewrite Z.shiftl_mul_pow2 by lia.
  destruct (wrap_congr x) as [q ->].
  replace ((x + q * 2 ^ 32) * 2 ^ j)
    with (x * 2 ^ j + (q * 2 ^ j * 2 ^ (32 - k)) * 2 ^ k).
  - apply Z_mod_plus_full.
  - replace (2 ^ 32) with (2 ^ (32 - k) * 2 ^ k)
      by (rewrite <- Z.pow_add_r by lia; f_equal; lia).
    ring.
Qed.

(** [(x << 8) | b] appends the byte [b] below [x]. *)
Lemma or_shl8_mod (x b k : Z) :
  0 <= b < 256 -> 0 <= k <= 32 ->
  or (shl x 8) b mod 2 ^ k = (x * 256 + b) mod 2 ^ k.
Proof.
  intros Hb Hk. unfold or.
  rewrite (wrap_small b) by lia.
  assert (Hlow : wrap (shl x 8) mod 2 ^ 8 = 0).
  { rewrite wrap_mod by lia. rewrite shl_mod by lia.
    apply Z_mod_mult. }
  assert (Hland : Z.land (wrap (shl x 8)) b = 0).
  { apply Z.bits_inj'. intros n Hn. rewrite Z.land_spec, Z.bits_0.
    destruct (Z_lt_dec n 8) as [Hlt|Hge].
    - replace (Z.testbit (wrap (shl x 8)) n) with false; [reflexivity|].
      symmetry. rewrite <- (Z.mod_pow2_bits_low _ 8 n) by lia.
      rewrite Hlow. apply Z.bits_0.
    - replace (Z.testbit b n) with false; [apply andb_false_r|].
      symmetry. destruct (Z.eq_dec b 0) as [->|Hnz]; [apply Z.bits_0|].
      apply Z.bits_above_log2; [lia|].
      apply Z.log2_lt_pow2; [lia|].
      apply Z.lt_le_trans with (2 ^ 8); [lia|].
      apply Z.pow_le_mono_r; lia. }
  pose proof (Z.add_lor_land (wrap (shl x 8)) b) as Hadd.
  rewrite Hland, Z.add_0_r in Hadd. rewrite Hadd.
  rewrite <- Zplus_mod_idemp_l. rewrite wrap_mod by lia.
  rewrite shl_mod by lia. rewrite Zplus_mod_idemp_l.
  reflexivity.
Qed.

End Int32Facts.

(** ** Binary64 arithmetic on safe integers *)

Module Binary64Facts.
Import JS.

Lemma round53_small (z : Z) : Z.abs z <= 2 ^ 53 -> round53 z = z.
Proof.
  intros H. unfold round53.
  destruct (Z.leb_spec (Z.abs z) (2 ^ 53)); [reflexivity | lia].
Qed.

(** The exponent of the quotient of a safe integer by 1000 leaves at
    least nine bits below the point. *)
Lemma div64_exponent (a : Z) :
  0 < a <= 2 ^ 53 ->
  Z.log2 (a * 2 ^ 1100 / 1000) - 1100 - 52 <= -9.
Proof.
  intros Ha.
  set (P := 2 ^ 1100).
  assert (HP : 0 < P) by (apply Z.pow_pos_nonneg; lia).
  assert (Hlow : 0 < a * P / 1000).
  { apply Z.div_str_pos. split; [lia|].
    assert (1000 <= P) by (unfold P; apply (Z.le_trans _ (2 ^ 10));
      [vm_compute; discriminate | apply Z.pow_le_mono_r; lia]).
    nia. }
  assert (Hup : a * P / 1000 < 2 ^ 1144).
  { apply Z.div_lt_upper_bound; [lia|].
    replace (2 ^ 1144) with (2 ^ 44 * P)
      by (unfold P; rewrite <- Z.pow_add_r by lia; reflexivity).
    assert (a < 1000 * 2 ^ 44) by (change (2 ^ 53) with 9007199254740992 in Ha;
      change (2 ^ 44) with 17592186044416; lia).
    nia. }
  apply Z.log2_lt_pow2 in Hup; [lia | exact Hlow].
Qed.

(** Rounding to nearest moves the scaled quotient by half a unit at
    most. *)
Lemma nearest_within_half (n q r m : Z) :
  n = 1000 * q + r -> 0 <= r < 1000 ->
  m = (if (1000 <? 2 * r) || ((2 * r =? 1000) && Z.odd q)
       then q + 1 else q) ->
  -500 <= 1000 * m - n <= 500.
Proof.
  intros Hn Hr Hm.
  destruct (Z.ltb_spec 1000 (2 * r)); cbn [orb] in Hm; [lia|].
  destruct (Z.eqb_spec (2 * r) 1000); cbn [andb] in Hm;
    [destruct (Z.odd q)|]; lia.
Qed.

(** The quotient of a safe integer by 1000, as [div64] gives it: a
    scaled value within half a unit of the exact one, at a scale of 512
    or more. *)
Lemma div64_1000 (y : Z) :
  Z.abs y <= 2 ^ 53 ->
  exists m s,
    0 <= s
    /\ div64 y 1000 = (m, - s)
    /\ (y = 0 \/ 512 <= 2 ^ s)
    /\ -500 <= 1000 * m - y * 2 ^ s <= 500.
Proof.
  intros Hy. unfold div64.
  destruct (Z.eqb_spec y 0) as [->|Hnz].
  { exists 0, 0. cbn. repeat split; auto; lia. }
  set (a := Z.abs y).
  assert (Ha : 0 < a <= 2 ^ 53) by (unfold a; lia).
  pose proof (div64_exponent a Ha) as He.
  set (e := Z.log2 (a * 2 ^ 1100 / 1000) - 1100 - 52) in *.
  destruct (Z.ltb_spec e 0) as [_|]; [|lia].
  set (P := 2 ^ (- e)).
  assert (HP : 512 <= P).
  { unfold P. change 512 with (2 ^ 9). apply Z.pow_le_mono_r; lia. }
  pose proof (Z.div_mod (a * P) 1000 ltac:(lia)) as Hdm.
  pose proof (Z.mod_pos_bound (a * P) 1000 ltac:(lia)) as Hr.
  set (q := a * P / 1000) in *. set (r := (a * P) mod 1000) in *.
  set (m := if (1000 <? 2 * r) || ((2 * r =? 1000) && Z.odd q)
            then q + 1 else q).
  pose proof (nearest_within_half (a * P) q r m Hdm Hr eq_refl) as Hm.
  exists (Z.sgn y * m), (- e).
  rewrite Z.opp_involutive. fold P.
  split; [lia|]. split; [reflexivity|]. split; [right; exact HP|].
  destruct (Z.sgn_spec y) as [[Hpos ->] | [[Hzero _] | [Hneg ->]]];
    [|lia|].
  - replace (y * P) with (a * P) by (unfold a; rewrite Z.abs_eq by lia; lia).
    lia.
  - replace (y * P) with (- (a * P))
      by (unfold a; rewrite Z.abs_neq by lia; lia).
    lia.
Qed.

Lemma lt_div64_exact (x y : Z) :
  Z.abs y <= 2 ^ 53 ->
  lt_dyadic x (div64 y 1000) = (x * 1000 <? y).
Proof.
  intros Hy.
  destruct (div64_1000 y Hy) as (m & s & Hs & -> & Hscale & Hm).
  unfold lt_dyadic.
  set (P := 2 ^ s) in *.
  assert (HP : 0 < P) by (apply Z.pow_pos_nonneg; lia).
  assert (Hgoal : x * P < m <-> x * 1000 < y).
  { destruct Hscale as [-> | HP512].
    - assert (m = 0) by lia. subst m. nia.
    - split; intros H.
      + assert (1000 * (x * P) < y * P) by lia. nia.
      + assert ((x * 1000 + 1) * P <= y * P) by nia. nia. }
  destruct (Z.ltb_spec (- s) 0).
  - rewrite Z.opp_involutive. fold P.
    destruct (Z.ltb_spec (x * P) m), (Z.ltb_spec (x * 1000) y);
      try reflexivity; exfalso; lia.
  - assert (s = 0) by lia. subst s. change (2 ^ (- 0)) with 1.
    unfold P in *. change (2 ^ 0) with 1 in *.
    destruct (Z.ltb_spec x (m * 1)), (Z.ltb_spec (x * 1000) y);
      try reflexivity; exfalso; lia.
Qed.

Lemma gt_div64_exact (x y : Z) :
  Z.abs y <= 2 ^ 53 ->
  gt_dyadic x (div64 y 1000) = (y <? x * 1000).
Proof.
  intros Hy.
  destruct (div64_1000 y Hy) as (m & s & Hs & -> & Hscale & Hm).
  unfold gt_dyadic.
  set (P := 2 ^ s) in *.
  assert (HP : 0 < P) by (apply Z.pow_pos_nonneg; lia).
  assert (Hgoal : m < x * P <-> y < x * 1000).
  { destruct Hscale as [-> | HP512].
    - assert (m = 0) by lia. subst m. nia.
    - split; intros H.
      + assert (y * P < 1000 * (x * P)) by lia. nia.
      + assert ((y + 1) * P <= x * 1000 * P) by nia. nia. }
  destruct (Z.ltb_spec (- s) 0).
  - rewrite Z.opp_involutive. fold P.
    destruct (Z.ltb_spec m (x * P)), (Z.ltb_spec y (x * 1000));
      try reflexivity; exfalso; lia.
  - assert (s = 0) by lia. subst s. change (2 ^ (- 0)) with 1.
    unfold P in *. change (2 ^ 0) with 1 in *.
    destruct (Z.ltb_spec (m * 1) x), (Z.ltb_spec y (x * 1000));
      try reflexivity; exfalso; lia.
Qed.

(** On safe integers the product and the two comparisons with a
    quotient by 1000 are the exact ones. *)
Lemma num_mul_exact (x y : Z) :
  Z.abs (x * y) <= 2 ^ 53 -> num_mul (Num x) (Num y) = Num (x * y).
Proof. intros H. unfold num_mul. now rewrite round53_small. Qed.

Lemma lt_quot_exact (x y : Z) :
  Z.abs y <= 2 ^ 53 -> lt_quot (Num x) (Num y) 1000 = (x * 1000 <? y).
Proof. apply lt_div64_exact. Qed.

Lemma gt_quot_exact (x y : Z) :
  Z.abs y <= 2 ^ 53 -> gt_quot (Num x) (Num y) 1000 = (y <? x * 1000).
Proof. apply gt_div64_exact. Qed.

End Binary64Facts.

(** ** The bech32 regrouping loop *)

Module Bech32Facts.
Import Int32 Int32Facts Bech32.

(** *** Bit strings *)

Lemma fold_bits_acc (l : list bool) (acc : Z) :
  fold_left (fun a b => 2 * a + Z.b2z b) l acc
  = acc * 2 ^ Z.of_nat (List.length l) + bits_value l.
Proof.
  unfold bits_value. revert acc.
  induction l as [|b l IH]; intros acc.
  - simpl. lia.
  - cbn [fold_left List.length]. rewrite IH, (IH (2 * 0 + Z.b2z b)).
    rewrite Nat2Z.inj_succ, Z.pow_succ_r by lia. ring.
Qed.

Lemma bits_value_app (a b : list bool) :
  bits_value (a ++ b)
  = bits_value a * 2 ^ Z.of_nat (List.length b) + bits_value b.
Proof.
  unfold bits_value at 1. rewrite fold_left_app.
  fold (bits_value a). apply fold_bits_acc.
Qed.

Lemma bits_value_range (l : list bool) :
  0 <= bits_value l < 2 ^ Z.of_nat (List.length l).
Proof.
  induction l as [|b l IH] using rev_ind.
  - cbn. lia.
  - rewrite bits_value_app, length_app. cbn [List.length].
    rewrite Nat2Z.inj_add, Z.pow_add_r by lia.
    change (bits_value [b]) with (2 * 0 + Z.b2z b).
    destruct b; cbn [Z.b2z]; change (2 ^ Z.of_nat 1) with 2; lia.
Qed.

Lemma bits_value_zeros (k : nat) : bits_value (repeat false k) = 0.
Proof.
  induction k as [|k IH]; [reflexivity|].
  change (repeat false (S k)) with ([false] ++ repeat false k).
  rewrite bits_value_app, IH. cbn. lia.
Qed.

Lemma byte_val_range (b : byte) : 0 <= byte_val b < 256.
Proof.
  unfold byte_val. pose proof (Byte.to_N_bounded b). lia.
Qed.

Lemma byte_bits_value (b : byte) : bits_value (byte_bits b) = byte_val b.
Proof. destruct b; reflexivity. Qed.

Lemma byte_bits_length (b : byte) : List.length (byte_bits b) = 8%nat.
Proof. reflexivity. Qed.

(** Splitting a number whose low bits spell [a ++ b]. *)
Lemma split_low_bits (x : Z) (a b : list bool) :
  x mod 2 ^ Z.of_nat (List.length (a ++ b)) = bits_value (a ++ b) ->
  (x mod 2 ^ Z.of_nat (List.length (a ++ b)))
    / 2 ^ Z.of_nat (List.length b) = bits_value a
  /\ x mod 2 ^ Z.of_nat (List.length b) = bits_value b.
Proof.
  intros H. pose proof (bits_value_range b) as Hb.
  set (nb := Z.of_nat (List.length b)) in *.
  assert (Hpos : 0 < 2 ^ nb) by (apply Z.pow_pos_nonneg; lia).
  split.
  - rewrite H, bits_value_app. fold nb.
    rewrite Z.div_add_l by lia. rewrite Z.div_small by lia. lia.
  - rewrite <- (Z.mod_mod_divide x (2 ^ Z.of_nat (List.length (a ++ b)))
                                 (2 ^ nb)).
    + rewrite H, bits_value_app. fold nb.
      rewrite Z.add_comm, Z_mod_plus_full. apply Z.mod_small; lia.
    + rewrite length_app, Nat2Z.inj_add, Z.pow_add_r by lia.
      fold nb. exists (2 ^ Z.of_nat (List.length a)). reflexivity.
Qed.

(** *** Groups of five *)

Lemma groups_of5_cons5 (a b c d e : bool) (r : list bool) :
  groups_of5 (a :: b :: c :: d :: e :: r) = [a; b; c; d; e] :: groups_of5 r.
Proof. reflexivity. Qed.

Lemma groups_of5_short (l : list bool) :
  (0 < List.length l < 5)%nat ->
  groups_of5 l = [l ++ repeat false (5 - List.length l)].
Proof.
  intros H.
  destruct l as [|a [|b [|c [|d [|e r]]]]]; cbn in H; try lia; reflexivity.
Qed.

(** *** The inner loop *)

Lemma drain_unfold (bits bitsLen : Z) (words : list Z) :
  drain bits bitsLen words
  = if Z_le_dec 5 bitsLen
    then drain bits (bitsLen - 5)
               (words ++ [Int32.and (Int32.sar bits (bitsLen - 5)) 31])
    else (bitsLen, words).
Proof.
  rewrite drain_equation_1. destruct (Z_le_dec 5 bitsLen); reflexivity.
Qed.

(** Induction five items at a time. *)
Lemma list_ind5 (P : list bool -> Prop) :
  (forall l, (List.length l < 5)%nat -> P l) ->
  (forall a b c d e r, P r -> P (a :: b :: c :: d :: e :: r)) ->
  forall l, P l.
Proof.
  intros Hshort Hstep l.
  remember (List.length l) as n eqn:Hn. revert l Hn.
  induction n as [n IH] using lt_wf_ind. intros l Hn.
  destruct l as [|a [|b [|c [|d [|e r]]]]];
    try (apply Hshort; cbn; lia).
  apply Hstep. apply (IH (List.length r)); [cbn in Hn; lia | reflexivity].
Qed.

Lemma leftover_short (l : list bool) : (List.length (leftover l) < 5)%nat.
Proof.
  induction l as [l Hl | a b c d e r IH] using list_ind5.
  - destruct l as [|a [|b [|c [|d [|e r]]]]]; cbn in *; lia.
  - exact IH.
Qed.

Lemma groups_of5_leftover (l tail : list bool) :
  groups_of5 (l ++ tail) = full_groups l ++ groups_of5 (leftover l ++ tail).
Proof.
  induction l as [l Hl | a b c d e r IH] using list_ind5.
  - destruct l as [|a [|b [|c [|d [|e r]]]]]; cbn in Hl; try lia;
      reflexivity.
  - cbn [app full_groups leftover]. rewrite groups_of5_cons5, IH.
    reflexivity.
Qed.

(** While at most 32 bits are pending, the loop emits the full groups
    of the pending bits and leaves the rest pending. *)
Lemma drain_spec (pend : list bool) :
  forall (bits : Z) (words : list Z),
    (List.length pend <= 32)%nat ->
    bits mod 2 ^ Z.of_nat (List.length pend) = bits_value pend ->
    drain bits (Z.of_nat (List.length pend)) words
    = (Z.of_nat (List.length (leftover pend)),
       words ++ map bits_value (full_groups pend))
    /\ bits mod 2 ^ Z.of_nat (List.length (leftover pend))
       = bits_value (leftover pend).
Proof.
  induction pend as [l Hl | a b c d e r IH] using list_ind5;
    intros bits words Hlen Hbits.
  - rewrite drain_unfold.
    destruct (Z_le_dec 5 (Z.of_nat (List.length l))) as [Hge|_]; [lia|].
    destruct l as [|a [|b [|c [|d [|e r]]]]]; cbn in Hl; try lia;
      cbn [leftover full_groups map]; rewrite app_nil_r; auto.
  - rewrite drain_unfold.
    destruct (Z_le_dec 5 (Z.of_nat (List.length (a :: b :: c :: d :: e :: r))))
      as [_|Hlt]; [|cbn [List.length] in Hlt; lia].
    change (a :: b :: c :: d :: e :: r) with ([a; b; c; d; e] ++ r) in *.
    destruct (split_low_bits bits [a; b; c; d; e] r Hbits) as [Hhi Hlo].
    assert (Hk : Z.of_nat (List.length ([a; b; c; d; e] ++ r)) - 5
                 = Z.of_nat (List.length r))
      by (rewrite length_app; cbn [List.length]; lia).
    rewrite Hk.
    rewrite length_app in Hlen. cbn [List.length] in Hlen.
    rewrite and_sar_31 by lia.
    replace (Z.of_nat (List.length r) + 5)
      with (Z.of_nat (List.length ([a; b; c; d; e] ++ r)))
      by (rewrite length_app; cbn [List.length]; lia).
    rewrite Hhi.
    destruct (IH bits (words ++ [bits_value [a; b; c; d; e]])
                 ltac:(lia) Hlo) as [Hd Hrest].
    cbn [app leftover full_groups map].
    rewrite Hd, <- app_assoc. cbn [app]. auto.
Qed.

(** *** The outer loop and the final flush *)

Lemma flush_spec (pend : list bool) (bits : Z) (words : list Z) :
  (List.length pend < 5)%nat ->
  bits mod 2 ^ Z.of_nat (List.length pend) = bits_value pend ->
  flush (bits, Z.of_nat (List.length pend), words)
  = words ++ map bits_value (groups_of5 pend).
Proof.
  intros Hlen Hbits. unfold flush.
  destruct (0 <? Z.of_nat (List.length pend)) eqn:Hpos.
  - apply Z.ltb_lt in Hpos.
    rewrite groups_of5_short by lia. cbn [map]. do 2 f_equal.
    rewrite bits_value_app, repeat_length, bits_value_zeros, Z.add_0_r.
    rewrite and_31. change 32 with (2 ^ 5). rewrite shl_mod by lia.
    rewrite <- Hbits.
    set (n := Z.of_nat (List.length pend)) in *.
    replace (Z.of_nat (5 - List.length pend)) with (5 - n) by lia.
    replace (2 ^ 5) with (2 ^ n * 2 ^ (5 - n))
      by (rewrite <- Z.pow_add_r by lia; f_equal; lia).
    rewrite Z.mul_mod_distr_r; [reflexivity | |];
      apply Z.pow_nonzero; lia.
  - apply Z.ltb_ge in Hpos.
    destruct pend; [|cbn in Hpos; lia]. cbn. now rewrite app_nil_r.
Qed.

Lemma to5_loop_spec (data : list byte) :
  forall (pend : list bool) (bits : Z) (words : list Z),
    (List.length pend < 5)%nat ->
    bits mod 2 ^ Z.of_nat (List.length pend) = bits_value pend ->
    flush (fold_left to5_step (map byte_val data)
                     (bits, Z.of_nat (List.length pend), words))
    = words ++ map bits_value (groups_of5 (pend ++ flat_map byte_bits data)).
Proof.
  induction data as [|b data IH]; intros pend bits words Hlen Hbits.
  - cbn [map fold_left flat_map]. rewrite app_nil_r.
    now apply flush_spec.
  - cbn [map fold_left flat_map].
    unfold to5_step at 2.
    set (bits' := Int32.or (Int32.shl bits 8) (byte_val b)).
    pose proof (byte_val_range b) as Hb.
    assert (Hpend' : bits' mod 2 ^ Z.of_nat (List.length (pend ++ byte_bits b))
                     = bits_value (pend ++ byte_bits b)).
    { unfold bits'. rewrite or_shl8_mod;
        [| lia | rewrite length_app, byte_bits_length; lia].
      rewrite bits_value_app, byte_bits_value, byte_bits_length, <- Hbits.
      rewrite length_app, byte_bits_length, Nat2Z.inj_add, Z.pow_add_r by lia.
      change (2 ^ Z.of_nat 8) with 256.
      pose proof (Z.mod_pos_bound bits (2 ^ Z.of_nat (List.length pend))
                    ltac:(apply Z.pow_pos_nonneg; lia)) as Hr.
      rewrite <- (Z.mul_mod_distr_r bits _ 256) by lia.
      rewrite <- (Zplus_mod_idemp_l (bits * 256)). apply Z.mod_small.
      rewrite Z.mul_mod_distr_r by lia. lia. }
    replace (Z.of_nat (List.length pend) + 8)
      with (Z.of_nat (List.length (pend ++ byte_bits b)))
      by (rewrite length_app, byte_bits_length; lia).
    destruct (drain_spec (pend ++ byte_bits b) bits' words
                ltac:(rewrite length_app, byte_bits_length; lia) Hpend')
      as [Hd Hrest].
    rewrite Hd.
    rewrite (IH _ _ _ (leftover_short _) Hrest).
    rewrite <- app_assoc, <- map_app. do 2 f_equal.
    rewrite app_assoc. symmetry. apply groups_of5_leftover.
Qed.

(** The regrouping loop computes the regrouping of the specification. *)
Lemma bech32To5Bit_spec (data : list byte) :
  bech32To5Bit data = spec_regroup data.
Proof.
  unfold bech32To5Bit, spec_regroup.
  apply (to5_loop_spec data [] 0 []); [cbn; lia | reflexivity].
Qed.

End Bech32Facts.

(** ** The bech32 checksum and the assembled text *)

Module Bech32Checksum.
Import Int32 Int32Facts Bech32 Bech32Facts.

Lemma low_bits_div (x k : Z) :
  0 <= k -> (x mod 2 ^ (k + 5)) / 2 ^ k = (x / 2 ^ k) mod 32.
Proof.
  intros Hk. change 32 with (2 ^ 5). rewrite Z.pow_add_r by lia.
  rewrite Z.rem_mul_r by lia.
  rewrite (Z.mul_comm (2 ^ k)), Z.div_add by lia.
  rewrite (Z.div_small (x mod 2 ^ k)); [lia|].
  apply Z.mod_pos_bound; lia.
Qed.

Lemma xor_0_r (y : Z) : xor y 0 = wrap y.
Proof. unfold xor. change (wrap 0) with 0. apply Z.lxor_0_r. Qed.

Lemma xor_1_r (y : Z) : xor y 1 = Z.lxor (wrap y) 1.
Proof. unfold xor. change (wrap 1) with 1. reflexivity. Qed.

(** The step reads its argument through 32-bit operators only. *)
Lemma step_wrap (p : Z) : bech32PolymodStep (wrap p) = bech32PolymodStep p.
Proof.
  unfold bech32PolymodStep, gen_term, sar, and.
  rewrite !wrap_wrap. reflexivity.
Qed.

(** Folds, stated for arbitrary step functions. *)
Lemma fold_left_map_gen {A B C : Type} (f : A -> B -> A) (g : C -> B)
      (l : list C) (a : A) :
  fold_left f (map g l) a = fold_left (fun x c => f x (g c)) l a.
Proof.
  revert a. induction l as [|c l IH]; intros a; cbn; [reflexivity|].
  apply IH.
Qed.

Lemma fold_left_ext_gen {A B : Type} (f g : A -> B -> A) :
  (forall a b, f a b = g a b) ->
  forall l a, fold_left f l a = fold_left g l a.
Proof.
  intros H l. induction l as [|b l IH]; intros a; cbn; [reflexivity|].
  rewrite H. apply IH.
Qed.

Lemma fold_left_six_zeros {A : Type} (f : A -> Z -> A) (a : A) :
  fold_left f (repeat 0 6) a = f (f (f (f (f (f a 0) 0) 0) 0) 0) 0.
Proof. reflexivity. Qed.

Lemma fold_left_six_steps {A : Type} (s : A -> A) (a : A) :
  fold_left (fun p (_ : Z) => s p) checksum_indices a
  = s (s (s (s (s (s a))))).
Proof. reflexivity. Qed.

Lemma fold_prefix (l : list ascii) (a : Z) :
  fold_left (fun p v => xor (bech32PolymodStep p) v) (map low5 l) a
  = fold_left (fun p c => xor (bech32PolymodStep p)
                              (and (charCodeAt0 c) 31)) l a.
Proof.
  rewrite fold_left_map_gen. apply fold_left_ext_gen.
  intros p c. unfold low5. rewrite and_31. reflexivity.
Qed.

Lemma fold_zeros (a : Z) :
  fold_left (fun p v => xor (bech32PolymodStep p) v) (repeat 0 6) a
  = wrap (fold_left (fun p _ => bech32PolymodStep p) checksum_indices a).
Proof.
  rewrite fold_left_six_zeros, fold_left_six_steps.
  rewrite !xor_0_r, !step_wrap. reflexivity.
Qed.

Lemma split6_spec (x : Z) :
  map (fun i => and (sar x (5 * (5 - i))) 31) checksum_indices = split6 x.
Proof.
  unfold split6. apply map_ext_in. intros i Hi.
  assert (Hr : 0 <= 5 * (5 - i) <= 27).
  { cbn in Hi. intuition lia. }
  rewrite and_sar_31, low_bits_div by lia. reflexivity.
Qed.

(** The three loops of [bech32CreateChecksum] are one pass over the
    prefix symbols, the groups and six zeros. *)
Lemma bech32CreateChecksum_spec (prefix : string) (groups : list Z) :
  bech32CreateChecksum prefix groups = spec_checksum prefix groups.
Proof.
  unfold bech32CreateChecksum, spec_checksum.
  rewrite split6_spec. f_equal.
  rewrite !fold_left_app, fold_prefix, fold_zeros.
  apply xor_1_r.
Qed.

(** *** Assembling the text *)

Lemma append_nil_r (s : string) : (s ++ "")%string = s.
Proof. induction s as [|c s IH]; cbn; [reflexivity | now rewrite IH]. Qed.

Lemma append_assoc (a b c : string) :
  ((a ++ b) ++ c)%string = (a ++ (b ++ c))%string.
Proof. induction a as [|x a IH]; cbn; [reflexivity | now rewrite IH]. Qed.

Lemma concat_cons (x : string) (xs : list string) :
  String.concat "" (x :: xs) = (x ++ String.concat "" xs)%string.
Proof.
  destruct xs as [|y xs]; cbn [String.concat].
  - symmetry. apply append_nil_r.
  - reflexivity.
Qed.

Lemma fold_charset (l : list Z) (init : string) :
  fold_left (fun r w => (r ++ charset_at w)%string) l init
  = (init ++ String.concat "" (map charset_at l))%string.
Proof.
  revert init. induction l as [|w l IH]; intros init; cbn [fold_left map].
  - symmetry. apply append_nil_r.
  - rewrite IH, concat_cons, append_assoc. reflexivity.
Qed.

End Bech32Checksum.

(** ** The encoder against its specification *)

Module Bech32Claims.
Import Bech32 Bech32Facts Bech32Checksum.

(** Claim C7, amended.  For every ASCII prefix and every byte sequence,
    [bech32Encode] returns the upper-cased form of
    prefix + "1" + the charset symbols of (five-bit groups ++ checksum):
    the groups are the payload bits taken most significant first, the last
    group zero-filled on the low end; the checksum feeds the polymod
    state the low five bits of each character of prefix + "1", the groups
    and six zeros, XORs the remainder with 1 and splits it into six
    five-bit symbols. *)
Theorem bech32Encode_upper (prefix : string) (data : list byte) :
  ascii_only prefix = true ->
  bech32Encode prefix data = toUpperCase (spec_encode prefix data).
Proof.
  intros _. unfold bech32Encode, spec_encode.
  rewrite bech32To5Bit_spec, bech32CreateChecksum_spec, fold_charset.
  rewrite append_assoc. reflexivity.
Qed.

(** Claim C7: the amended statement at the prefix "lnurl" and the two
    bytes "hi". *)
Lemma bech32Encode_upper_witness :
  ascii_only "lnurl" = true
  /\ bech32Encode "lnurl" [x68; x69]%byte
     = toUpperCase (spec_encode "lnurl" [x68; x69]%byte).
Proof.
  split; [reflexivity | apply bech32Encode_upper; reflexivity].
Defined.

(** Claim C7 as stated fails: the encoder's text is upper case, the
    text the claim describes keeps the prefix and the charset's lower
    case. *)
Lemma bech32Encode_not_spec_encode :
  bech32Encode "lnurl" [x68; x69]%byte = "LNURL1DP5SDZ58CD"
  /\ spec_encode "lnurl" [x68; x69]%byte = "lnurl1dp5sdz58cd"
  /\ bech32Encode "lnurl" [x68; x69]%byte
     <> spec_encode "lnurl" [x68; x69]%byte.
Proof.
  split; [vm_compute; reflexivity|].
  split; [vm_compute; reflexivity|].
  vm_compute. discriminate.
Qed.

End Bech32Claims.

(** ** The receipt validator *)

Module RelayFacts.
Import JS JSNotations NostrRelayManager.

Lemma try_catch_total {A : Type} (body : result A) (h : exn -> A) :
  exists a, try_catch body (fun e => Ok (h e)) = Ok a.
Proof. destruct body as [a|e]; cbn; eauto. Qed.

Lemma strict_eq_str (v : value) (k : string) :
  strict_eq v (VStr k) = true -> v = VStr k.
Proof.
  destruct v; cbn; try discriminate.
  intros H. apply String.eqb_eq in H. now subst.
Qed.

Lemma find_truthy (p : value -> bool) (l : list value) :
  truthy (find p l) = true -> p (find p l) = true.
Proof.
  induction l as [|x l IH]; cbn; [discriminate|].
  destruct (p x) eqn:Hp; auto.
Qed.

(** A tag that the lookup returns is the key itself. *)
Lemma lookup_tag_found (tags : list value) (k : string) :
  truthy (lookup_tag tags k) = true -> lookup_tag tags k = VStr k.
Proof.
  intros H. apply strict_eq_str. now apply find_truthy in H.
Qed.

(** No array is ever equal to the key, so tags of the usual shape are
    not found. *)
Lemma lookup_tag_arrays (tags : list value) (k : string) :
  forallb is_array tags = true -> lookup_tag tags k = VUndefined.
Proof.
  unfold lookup_tag.
  induction tags as [|t tags IH]; cbn; [reflexivity|].
  intros H. apply andb_prop in H. destruct H as [Ht Hrest].
  destruct t; try discriminate. cbn. auto.
Qed.

Section WithHost.
Context (host : Host) (cfg : config).


Lemma validateZapRequest_total (zr : value) (sid : string) (exp : number) :
  exists z, validateZapRequest host cfg zr sid exp = Ok z.
Proof.
  unfold validateZapRequest.
  apply (try_catch_total _ (fun e => ZInvalid (message e))).
Qed.

Lemma parseInt10_amount : parseInt10 host (VStr "amount") = NaN.
Proof. reflexivity. Qed.

(** The amount that an accepted request carries is never a number. *)
Lemma validateZapRequest_valid_NaN (zr : value) (sid : string)
      (exp am sats : number) :
  validateZapRequest host cfg zr sid exp = Ok (ZValid am sats) ->
  am = NaN /\ sats = NaN.
Proof.
  unfold validateZapRequest, find_tag.
  destruct (get host zr "kind") as [kind|e]; cbn; [|discriminate].
  destruct (negb (strict_eq kind (VNum (Num 9734)))); [discriminate|].
  destruct (get host zr "tags") as [tags|e]; cbn; [|discriminate].
  destruct tags as [| | | | |items|]; cbn; try discriminate.
  fold (lookup_tag items "amount") (lookup_tag items "p").
  destruct (truthy (lookup_tag items "amount")) eqn:Ha; cbn;
    [|discriminate].
  rewrite (lookup_tag_found _ _ Ha), parseInt10_amount. cbn.
  destruct (_ || _); cbn; [discriminate|].
  intros H. inversion H. auto.
Qed.

(** The text handed to [JSON.parse] is always the word "description",
    which is not JSON: with a parser that rejects it, no receipt at all
    is accepted. *)
Lemma validateZapReceipt_never_valid (ev : value) (sid : string)
      (exp : number) :
  JSON_parse host "description" = None ->
  forall sats sender bolt11 zr,
    validateZapReceipt host cfg ev sid exp
    <> Ok (Valid sats sender bolt11 zr).
Proof.
  intros Hparse sats sender bolt11 zr.
  unfold validateZapReceipt, find_tag.
  destruct (get host ev "kind") as [kind|e]; cbn [bind try_catch];
    [|discriminate].
  destruct (negb (strict_eq kind (VNum (Num 9735)))); [discriminate|].
  destruct (verifyEventSignature host ev) as [[|]|e]; cbn [bind negb];
    try discriminate.
  destruct (get host ev "tags") as [tags|e]; cbn [bind]; [|discriminate].
  destruct tags as [| | | | |items|]; cbn [call_find bind];
    try discriminate.
  fold (lookup_tag items "bolt11") (lookup_tag items "description")
       (lookup_tag items "p").
  destruct (truthy (lookup_tag items "bolt11")); cbn [negb orb];
    [|discriminate].
  destruct (truthy (lookup_tag items "description")) eqn:Hd;
    cbn [negb orb]; [|discriminate].
  destruct (truthy (lookup_tag items "p")); cbn [negb orb];
    [|discriminate].
  destruct (negb (strict_eq (lookup_tag items "p") _)); [discriminate|].
  rewrite (lookup_tag_found _ _ Hd). cbn [to_string].
  rewrite Hparse. discriminate.
Qed.

End WithHost.

Example sample_host_rejects_description :
  JSON_parse SampleHost.host "description" = None.
Proof. reflexivity. Qed.

End RelayFacts.

(** ** Acceptance of amounts, and totality *)

Module RelayClaims.
Import JS JSNotations NostrRelayManager RelayFacts.

(** Claim C1, at the input where the code departs from it.  A zap
    request of kind 9734 whose tags are arrays, as [createZapRequest]
    builds them, is rejected with "No amount in zap request" whatever
    amount it carries and whatever amount is expected: the lookup
    compares a whole tag with the key and never finds the amount tag, so
    the amount is neither accepted nor reported as insufficient. *)
Theorem validateZapRequest_misses_amount_tag
        (host : Host) (cfg : config) (props : list (string * value))
        (tags : list value) (sid : string) (expected : number) :
  lookup "kind" props = VNum (Num 9734) ->
  lookup "tags" props = VArr tags ->
  forallb is_array tags = true ->
  validateZapRequest host cfg (VObj props) sid expected
  = Ok (ZInvalid "No amount in zap request").
Proof.
  intros Hkind Htags Harr.
  unfold validateZapRequest, find_tag. cbn [get bind].
  rewrite Hkind, Htags. cbn [strict_eq num_eq negb call_find bind].
  rewrite Z.eqb_refl. cbn [negb].
  fold (lookup_tag tags "amount").
  rewrite (lookup_tag_arrays _ _ Harr). reflexivity.
Qed.

(** Claim C1: a request for 150 sats against an expected 100 sats. *)
Lemma validateZapRequest_misses_amount_tag_witness :
  validateZapRequest SampleHost.host Samples.relay_cfg (Samples.zap_request "150000")
                     "s1" (Num 100)
  = Ok (ZInvalid "No amount in zap request").
Proof.
  apply (validateZapRequest_misses_amount_tag SampleHost.host Samples.relay_cfg _
           [VArr [VStr "relays"; VStr "wss://nos.lol"];
            VArr [VStr "amount"; VStr "150000"];
            VArr [VStr "lnurl"; VStr "mustardmoose1@primal.net"];
            VArr [VStr "p"; VStr "npub-of-recipient"]]);
    reflexivity.
Defined.

(** An event that is [undefined], one without tags and one whose
    description is not JSON: each is answered, none throws. *)
Example validateZapReceipt_undefined_event
        (host : Host) (cfg : config) (sid : string) (expected : number) :
  validateZapReceipt host cfg VUndefined sid expected
  = Ok (Invalid (typeErrorText host "kind")).
Proof. reflexivity. Qed.

Example validateZapReceipt_no_tags
        (host : Host) (cfg : config) (sid : string) (expected : number) :
  validateZapReceipt host cfg
    (VObj [("kind", VNum (Num 9735)); ("id", VStr "e1"); ("sig", VStr "s");
           ("pubkey", VStr "k"); ("created_at", VNum (Num 1700000010))])
    sid expected
  = Ok (Invalid (typeErrorText host "find")).
Proof. reflexivity. Qed.

Example validateZapReceipt_bad_description :
  validateZapReceipt SampleHost.host
    {| recipientNostrPubkey := VStr "p" |}
    (Samples.receipt [VStr "bolt11"; VStr "description"; VStr "p"])
    "s1" (Num 100)
  = Ok (Invalid "Invalid zap request JSON").
Proof. reflexivity. Qed.

(** Claim C10.  For every event, of any shape, [validateZapReceipt]
    returns an outcome and does not throw; the outcome object has a
    boolean [valid] field and, when that is false, a string [reason]. *)
Theorem validateZapReceipt_total
        (host : Host) (cfg : config) (event : value) (sid : string)
        (expected : number) :
  exists (o : outcome) (valid : bool),
    validateZapReceipt host cfg event sid expected = Ok o
    /\ get host (outcome_object o) "valid" = Ok (VBool valid)
    /\ (valid = false ->
        exists reason, get host (outcome_object o) "reason" = Ok (VStr reason)).
Proof.
  unfold validateZapReceipt.
  match goal with
  | |- context [try_catch ?b _] =>
      destruct (try_catch_total b (fun e => Invalid (message e))) as [o Ho]
  end.
  exists o. destruct o as [reason | sats sender bolt11 zr].
  - exists false. repeat split; [exact Ho | intros _; now exists reason].
  - exists true. repeat split; [exact Ho | discriminate].
Qed.

End RelayClaims.

(** ** The order of the validation rules *)

Module RuleOrder.
Import JS JSNotations NostrRelayManager RelayFacts RelayClaims.

Section WithHost.
Context (host : Host) (cfg : config).




End WithHost.




End RuleOrder.

(** ** The subscription filter *)

Module ListenerClaims.
Import JS JSNotations NostrRelayManager RelayClaims.

(** Claim C6, amended.  The filter handed to the subscribe capability
    has kinds = [9735], authors = [the configured recipient key] and
    since = (the time of the call in seconds) - 60: it lets in exactly the
    events stamped no earlier than sixty seconds before the listener was
    set up, whenever the session was created. *)
Theorem zapReceiptFilter_sent
        (host : Host) (cfg : config) (Sub : Type)
        (subscribe : filter -> result Sub) (now_ms : Z)
        (flt : filter) (sub : Sub) :
  listenForZapReceipt host cfg (Some subscribe) now_ms = Ok (flt, sub) ->
  subscribe flt = Ok sub
  /\ kinds flt = [9735]
  /\ authors flt = [recipientNostrPubkey cfg]
  /\ since flt = Num (now_ms / 1000 - 60)
  /\ forall created_at,
      admits_since flt created_at = true <-> now_ms / 1000 - 60 <= created_at.
Proof.
  unfold listenForZapReceipt. intros H.
  destruct (subscribe (zapReceiptFilter cfg now_ms)) as [s|e] eqn:Hs;
    cbn in H; [|discriminate].
  inversion H; subst. repeat split; try assumption; try reflexivity.
  - unfold admits_since. cbn. apply Z.leb_le.
  - unfold admits_since. cbn. apply Z.leb_le.
Qed.

(** Claim C6: the amended statement for a listener set up at
    1700000000000 ms. *)
Lemma zapReceiptFilter_sent_witness :
  kinds (zapReceiptFilter Samples.relay_cfg 1700000000000) = [9735]
  /\ since (zapReceiptFilter Samples.relay_cfg 1700000000000) = Num 1699999940.
Proof.
  destruct (zapReceiptFilter_sent SampleHost.host Samples.relay_cfg unit
              (fun _ => Ok tt) 1700000000000
              (zapReceiptFilter Samples.relay_cfg 1700000000000) tt eq_refl)
    as (_ & Hk & _ & Hs & _).
  split; [exact Hk | exact Hs].
Defined.

(** Claim C6 as stated fails: for a session created at 1700000000000 ms
    and listened for at once, the filter lets in an event stamped fifty
    seconds before the creation. *)
Lemma filter_admits_event_before_creation :
  let createdAt := 1700000000000 in
  let flt := zapReceiptFilter Samples.relay_cfg createdAt in
  admits_since flt 1699999950 = true /\ 1699999950 * 1000 < createdAt.
Proof. cbv zeta. split; [reflexivity | lia]. Qed.

End ListenerClaims.

(** ** The receipt timeout *)

Module GameClaims.
Import JS SatSnakeGame.

(** Claim C3, at the input where the code departs from it.  When the
    receipt timer fires, the page shows the timeout text and nothing else
    changes: the relay subscription stays open, and the payment manager
    keeps its session and its in-progress flag. *)
Theorem onTimeout_leaves_session_and_subscription (g : game) :
  timeoutArmed g = true ->
  paymentStatus (onTimeout g) = "Payment timeout. Please try again."
  /\ subscription (onTimeout g) = subscription g
  /\ paymentManager (onTimeout g) = paymentManager g
  /\ gameUnlocked (onTimeout g) = gameUnlocked g.
Proof.
  intros H. unfold onTimeout. rewrite H. cbn. auto.
Qed.

(** Claim C3: the timer firing while the game waits for a receipt. *)
Lemma onTimeout_leaves_session_and_subscription_witness :
  subscription (onTimeout Samples.awaiting_game)
  = Some ("satsnake-1700000000000-k3x9q2m1z", Num 100)
  /\ LightningPaymentUI.paymentInProgress
       (paymentManager (onTimeout Samples.awaiting_game)) = true.
Proof.
  destruct (onTimeout_leaves_session_and_subscription Samples.awaiting_game eq_refl)
    as (_ & Hs & Hm & _).
  rewrite Hs, Hm. split; reflexivity.
Defined.

End GameClaims.

(** ** The negotiation flow, step by step *)

Module PaymentFacts.
Import JS Effects EffectNotations LightningPaymentUI.

Lemma on_world_run {A : Type} (c : M world A) (m : manager) (w : world) :
  on_world c (m, w) = (fst (c w), (m, snd (c w))).
Proof. unfold on_world. cbn. destruct (c w). reflexivity. Qed.

Lemma fetch_fetched (E : env) (url : string) (w : world) :
  fetched (snd (fetch E url w)) = fetched w ++ [url].
Proof. unfold fetch. destruct (net E _ url); reflexivity. Qed.

Section WithHost.
Context (host : Host) (E : env) (cfg : config).

Lemma generateSessionId_fetched (w : world) :
  exists sid,
    fst (generateSessionId E w) = Ok sid
    /\ fetched (snd (generateSessionId E w)) = fetched w.
Proof. eexists. split; reflexivity. Qed.

Lemma createZapRequest_fetched (sid : string) (a : number) (pk : value)
      (w : world) :
  exists zr,
    fst (createZapRequest E cfg sid a pk w) = Ok zr
    /\ fetched (snd (createZapRequest E cfg sid a pk w)) = fetched w.
Proof. eexists. split; reflexivity. Qed.

(** Once the callback URL is built, the request goes out, whatever
    comes back. *)
Lemma getInvoiceFromCallback_fetched
      (callback : value) (amountMsats : number) (zapRequest lnurl : value)
      (url : string) (w : world) :
  urlWithParams host (to_string host callback)
                (callback_params host amountMsats zapRequest lnurl)
  = Ok url ->
  (exists v, fst (getInvoiceFromCallback host E callback amountMsats
                                        zapRequest lnurl w) = Ok v)
  /\ fetched (snd (getInvoiceFromCallback host E callback amountMsats
                                          zapRequest lnurl w))
     = fetched w ++ [url].
Proof.
  intros Hurl. unfold getInvoiceFromCallback, try_catchM, bindM, lift.
  rewrite Hurl.
  unfold fetch.
  destruct (net E (List.length (fetched w)) url) as [e|ok status body];
    [cbn; eauto|].
  destruct ok; [|cbn; eauto].
  cbn [negb]. destruct body as [data|e]; [|cbn; eauto].
  destruct (get host data "status") as [st|e]; [|cbn; eauto].
  destruct (strict_eq st (VStr "ERROR")).
  { destruct (get host data "reason"); cbn; eauto. }
  destruct (get host data "pr") as [pr|e]; [|cbn; eauto].
  destruct (truthy pr); cbn; eauto.
Qed.

End WithHost.
End PaymentFacts.

(** ** Single flight, and the metadata lookup *)

Module PaymentClaims.
Import JS Effects EffectNotations LightningPaymentUI PaymentFacts.

(** Claim C5, amended.  While a payment is in progress,
    [initiatePayment] returns null at once, makes no request and leaves
    the manager, its stored session included, and the world as they were.
    Null is all the caller gets: it is the value of every failed
    negotiation too, there is no signal of its own for this case. *)
Theorem initiatePayment_single_flight
        (host : Host) (E : env) (cfg : config) (amountSats : option number)
        (m : manager) (w : world) :
  paymentInProgress m = true ->
  initiatePayment host E cfg amountSats (m, w) = (Ok None, (m, w)).
Proof.
  intros Hbusy.
  unfold initiatePayment, try_catchM, bindM, read_paymentInProgress.
  cbn [fst]. rewrite Hbusy. reflexivity.
Qed.

(** Claim C5: a second negotiation while the first awaits its
    receipt. *)
Lemma initiatePayment_single_flight_witness :
  initiatePayment SampleHost.host (Samples.provider (Samples.metadata 1000 500000))
                  Samples.payment_cfg (Some (Num 250))
                  (SatSnakeGame.paymentManager Samples.awaiting_game,
                   fresh_world)
  = (Ok None,
     (SatSnakeGame.paymentManager Samples.awaiting_game, fresh_world)).
Proof.
  apply initiatePayment_single_flight. reflexivity.
Defined.

(** Claim C5 as stated fails: the guard answers a busy manager with
    null, and null is also what an idle manager returns when the provider
    reports an error; nothing in the result tells the two apart. *)
Lemma busy_result_is_failure_result :
  let busy :=
    initiatePayment SampleHost.host
      (Samples.provider (Samples.metadata 1000 500000))
      Samples.payment_cfg None
      (SatSnakeGame.paymentManager Samples.awaiting_game, fresh_world) in
  let failed :=
    initiatePayment SampleHost.host
      (Samples.provider (VObj [("status", VStr "ERROR");
                               ("reason", VStr "no such user")]))
      Samples.payment_cfg None (new_manager, fresh_world) in
  paymentInProgress (SatSnakeGame.paymentManager Samples.awaiting_game)
  = true
  /\ paymentInProgress new_manager = false
  /\ fst busy = Ok None
  /\ fst failed = Ok None
  /\ fst busy = fst failed.
Proof. cbv zeta. repeat split; vm_compute; reflexivity. Qed.

(** Claim C8, amended.  When the provider's answer has no callback URL
    (the field is absent or falsy), [fetchLnurlMetadata] returns null, its
    one failure result; the sendable bounds are not looked at. *)
Theorem fetchLnurlMetadata_needs_callback
        (host : Host) (E : env) (cfg : config) (w : world)
        (ok : bool) (status : Z) (data : value) :
  net E (List.length (fetched w)) (lnurlp_url host cfg)
  = Response ok status (Ok data) ->
  lacks_callback host data = true ->
  fst (fetchLnurlMetadata host E cfg w) = Ok VNull.
Proof.
  intros Hnet Hlack.
  unfold fetchLnurlMetadata, try_catchM, bindM, lift, fetch.
  rewrite Hnet. destruct ok; [|reflexivity]. cbn [negb].
  unfold lacks_callback in Hlack.
  destruct (get host data "status") as [st|e]; [|reflexivity].
  destruct (strict_eq st (VStr "ERROR")).
  { destruct (get host data "reason"); reflexivity. }
  destruct (get host data "callback") as [cb|e]; [|reflexivity].
  rewrite Hlack. reflexivity.
Qed.

(** Claim C8: the amended statement for an answer that has the bounds
    and no callback. *)
Lemma fetchLnurlMetadata_needs_callback_witness :
  fst (fetchLnurlMetadata SampleHost.host
         (Samples.provider (VObj [("minSendable", VNum (Num 1000));
                                  ("maxSendable", VNum (Num 500000))]))
         Samples.payment_cfg fresh_world)
  = Ok VNull.
Proof.
  apply (fetchLnurlMetadata_needs_callback _ _ _ _ true 200
           (VObj [("minSendable", VNum (Num 1000));
                  ("maxSendable", VNum (Num 500000))]));
    reflexivity.
Defined.

(** Claim C8 as stated fails: an answer with a callback and without
    the sendable bounds comes back as metadata. *)
Lemma fetchLnurlMetadata_accepts_missing_bounds :
  fst (fetchLnurlMetadata SampleHost.host
         (Samples.provider Samples.metadata_without_bounds)
         Samples.payment_cfg fresh_world)
  = Ok (VObj [("lnurl", VStr "lnurl1https://example.com/.well-known/lnurlp/alice");
              ("domain", VStr "example.com");
              ("username", VStr "alice");
              ("callback", VStr "https://example.com/cb");
              ("tag", VStr "payRequest");
              ("allowsNostr", VBool true)])
  /\ fst (fetchLnurlMetadata SampleHost.host
            (Samples.provider Samples.metadata_without_bounds)
            Samples.payment_cfg fresh_world)
     <> Ok VNull.
Proof. split; [reflexivity | vm_compute; discriminate]. Qed.

End PaymentClaims.

(** ** The sendable bounds *)

Module NegotiationClaims.
Import JS Effects EffectNotations LightningPaymentUI PaymentFacts.

Section WithHost.
Context (host : Host) (E : env) (cfg : config).

(** A well-formed answer of the provider becomes the metadata object,
    after one request. *)
Lemma fetchLnurlMetadata_ok (w : world) (status : Z)
      (props : list (string * value)) :
  net E (List.length (fetched w)) (lnurlp_url host cfg)
  = Response true status (Ok (VObj props)) ->
  strict_eq (lookup "status" props) (VStr "ERROR") = false ->
  truthy (lookup "callback" props) = true ->
  fst (fetchLnurlMetadata host E cfg w)
  = Ok (VObj (("lnurl", VStr (encodeLnurl host (lnurlp_url host cfg)))
              :: ("domain", domain cfg) :: ("username", username cfg)
              :: props))
  /\ fetched (snd (fetchLnurlMetadata host E cfg w))
     = fetched w ++ [lnurlp_url host cfg].
Proof.
  intros Hnet Hstatus Hcb.
  unfold fetchLnurlMetadata, try_catchM, bindM, lift, fetch.
  rewrite Hnet. cbn [negb get]. rewrite Hstatus, Hcb. cbn.
  split; reflexivity.
Qed.

End WithHost.

(** Claim C4, at the input where the code departs from it.  Once the
    provider's metadata has a callback and allows zaps, [initiatePayment]
    of the payment UI manager requests the callback with the amount in
    msats, whatever the amount and whatever the sendable bounds are: the
    bounds are never read. *)
Theorem initiatePayment_no_bounds_check
        (host : Host) (E : env) (cfg : config) (amountSats : option number)
        (m : manager) (w : world) (status : Z)
        (props : list (string * value)) :
  paymentInProgress m = false ->
  net E (List.length (fetched w)) (lnurlp_url host cfg)
  = Response true status (Ok (VObj props)) ->
  strict_eq (lookup "status" props) (VStr "ERROR") = false ->
  truthy (lookup "callback" props) = true ->
  truthy (lookup "allowsNostr" props) = true ->
  (forall params,
      exists url,
        urlWithParams host (to_string host (lookup "callback" props)) params
        = Ok url) ->
  exists url params,
    urlWithParams host (to_string host (lookup "callback" props)) params
    = Ok url
    /\ In ("amount",
           num_to_string (num_mul (amount_or_default cfg amountSats)
                                  (Num 1000))) params
    /\ fetched (snd (snd (initiatePayment host E cfg amountSats (m, w))))
       = fetched w ++ [lnurlp_url host cfg; url].
Proof.
  intros Hidle Hnet Hstatus Hcb Hnostr Hurl.
  destruct (generateSessionId_fetched E w) as (sid & Hsid & Hw1).
  set (w1 := snd (generateSessionId E w)) in *.
  assert (Hnet1 : net E (List.length (fetched w1)) (lnurlp_url host cfg)
                  = Response true status (Ok (VObj props)))
    by (rewrite Hw1; exact Hnet).
  destruct (fetchLnurlMetadata_ok host E cfg w1 status props
              Hnet1 Hstatus Hcb) as [Hmeta Hw2].
  set (w2 := snd (fetchLnurlMetadata host E cfg w1)) in *.
  pose (amount := amount_or_default cfg amountSats).
  destruct (createZapRequest_fetched E cfg sid amount
              (lookup "nostrPubkey" props) w2) as (zr & Hzr & Hw3).
  set (w3 := snd (createZapRequest E cfg sid amount
                    (lookup "nostrPubkey" props) w2)) in *.
  set (lnurl := VStr (encodeLnurl host (lnurlp_url host cfg))) in *.
  set (params := callback_params host (num_mul amount (Num 1000)) zr lnurl).
  destruct (Hurl params) as [url Hbuilt].
  destruct (getInvoiceFromCallback_fetched host E
              (lookup "callback" props) (num_mul amount (Num 1000))
              zr lnurl url w3 Hbuilt) as [[invoice Hinv] Hw4].
  set (w4 := snd (getInvoiceFromCallback host E (lookup "callback" props)
                    (num_mul amount (Num 1000)) zr lnurl w3)) in *.
  exists url, params. split; [exact Hbuilt|]. split; [left; reflexivity|].
  unfold initiatePayment, try_catchM, bindM, read_paymentInProgress,
    set_paymentInProgress, set_currentSession, lift, ret, throw.
  cbn [fst snd]. rewrite Hidle.
  rewrite !on_world_run. cbn [fst snd].
  rewrite Hsid. fold w1. rewrite Hmeta. fold w2.
  cbn [truthy negb get lookup String.eqb Ascii.eqb Bool.eqb].
  rewrite Hnostr. cbn [negb]. cbv beta.
  rewrite on_world_run. cbn [fst snd]. fold amount. rewrite Hzr. fold w3.
  rewrite on_world_run. cbn [fst snd]. rewrite Hinv. fold w4.
  assert (Hfinal : fetched w4 = fetched w ++ [lnurlp_url host cfg; url]).
  { rewrite Hw4, Hw3, Hw2, Hw1, <- app_assoc. reflexivity. }
  destruct (truthy invoice); cbn; exact Hfinal.
Qed.

(** Claim C4: 100 sats asked of a provider that takes 1000 to 5000
    sats. *)
Lemma initiatePayment_no_bounds_check_witness :
  exists url,
    fetched (snd (snd (initiatePayment SampleHost.host
                         (Samples.provider (Samples.metadata 1000000 5000000))
                         Samples.payment_cfg (Some (Num 100))
                         (new_manager, fresh_world))))
    = [] ++ [lnurlp_url SampleHost.host Samples.payment_cfg; url].
Proof.
  destruct (initiatePayment_no_bounds_check SampleHost.host
              (Samples.provider (Samples.metadata 1000000 5000000))
              Samples.payment_cfg (Some (Num 100)) new_manager fresh_world
              200
              [("callback", VStr "https://example.com/cb");
               ("minSendable", VNum (Num 1000000));
               ("maxSendable", VNum (Num 5000000));
               ("tag", VStr "payRequest");
               ("allowsNostr", VBool true);
               ("nostrPubkey", VStr "npub-of-recipient")]
              eq_refl eq_refl eq_refl eq_refl eq_refl
              (fun params => ex_intro _ _ eq_refl))
    as (url & params & _ & _ & H).
  exists url. exact H.
Defined.

(** The same run, spelled out: 100 sats against a provider that takes
    1000 to 5000 sats, and the callback is requested all the same. *)
Lemma initiatePayment_out_of_range_run :
  fetched (snd (snd (initiatePayment SampleHost.host
                       (Samples.provider (Samples.metadata 1000000 5000000))
                       Samples.payment_cfg (Some (Num 100))
                       (new_manager, fresh_world))))
  = ["https://example.com/.well-known/lnurlp/alice";
     "https://example.com/cb?amount=100000&nostr={}&lnurl=lnurl1https://example.com/.well-known/lnurlp/alice"].
Proof. vm_compute. reflexivity. Qed.

(** The tip manager of js/lightning does compare the amount with the
    bounds, and makes no further request (amount and bounds are safe
    integers, for which the rounded quotient decides as the exact one). *)
Lemma tip_initiatePayment_checks_bounds
      (host : Host) (E : env) (a mn mx : Z) (sid : string) (w : world)
      (status : Z) (props : list (string * value)) :
  Z.abs a <= 2 ^ 53 -> Z.abs mn <= 2 ^ 53 -> Z.abs mx <= 2 ^ 53 ->
  net E (List.length (fetched w)) LightningPaymentManager.lnurlEndpoint
  = Response true status (Ok (VObj props)) ->
  lookup "minSendable" props = VNum (Num mn) ->
  lookup "maxSendable" props = VNum (Num mx) ->
  a * 1000 < mn \/ mx < a * 1000 ->
  fst (LightningPaymentManager.initiatePayment host E (Num a) sid w)
  = Ok (LightningPaymentManager.Failure
          ("Amount " ++ num_to_string (Num a)
           ++ " sats is outside allowed range")%string)
  /\ fetched (snd (LightningPaymentManager.initiatePayment host E (Num a)
                     sid w))
     = fetched w ++ [LightningPaymentManager.lnurlEndpoint].
Proof.
  intros _ Hmn Hmx Hnet Hmin Hmax Hout.
  unfold LightningPaymentManager.initiatePayment, try_catchM, bindM, lift,
    fetch.
  rewrite Hnet. cbn [negb get]. rewrite Hmin.
  cbn [to_number]. rewrite (Binary64Facts.lt_quot_exact a mn Hmn).
  destruct (a * 1000 <? mn) eqn:Hlow; [cbn; split; reflexivity|].
  rewrite Hmax. cbn [to_number].
  rewrite (Binary64Facts.gt_quot_exact a mx Hmx).
  replace (mx <? a * 1000) with true; [cbn; split; reflexivity|].
  symmetry. apply Z.ltb_lt. apply Z.ltb_ge in Hlow. lia.
Qed.

End NegotiationClaims.

(** ** The stored session *)

Module SessionClaims.
Import JS Effects EffectNotations LightningPaymentUI PaymentFacts.

(** Step over the next sub-computation that only touches the world. *)
Ltac run_world := cbv beta; rewrite ?on_world_run; cbn [fst snd].

(** The run ends here, at the guard or in the catch block: read the final
    fields off the equation. *)
Ltac stopped :=
  let H := fresh "Hrun" in intros H; inversion H; auto.

(** Each way the fields of the manager can come out of
    [initiatePayment]. *)
Lemma initiatePayment_manager
      (host : Host) (E : env) (cfg : config) (a : option number)
      (m : manager) (w : world) (r : result (option payment_result))
      (m' : manager) (w' : world) :
  initiatePayment host E cfg a (m, w) = (r, (m', w')) ->
  m' = m
  \/ (paymentInProgress m = false
      /\ m' = {| paymentInProgress := false;
                 currentSession := currentSession m |})
  \/ (paymentInProgress m = false
      /\ exists s,
          m' = {| paymentInProgress := true; currentSession := Some s |}
          /\ amountMsats s = num_mul (amountSats s) (Num 1000)).
Proof.
  unfold initiatePayment, try_catchM, bindM, read_paymentInProgress,
    set_paymentInProgress, set_currentSession, lift, ret, throw.
  cbn [fst snd].
  destruct (paymentInProgress m) eqn:Hbusy; [stopped|].
  run_world.
  destruct (fst (generateSessionId E w)) as [sid|e]; [|stopped].
  run_world.
  destruct (fst (fetchLnurlMetadata host E cfg _)) as [meta|e]; [|stopped].
  destruct (negb (truthy meta)); [stopped|].
  destruct (get host meta "allowsNostr") as [an|e]; [|stopped].
  destruct (negb (truthy an)); [stopped|].
  destruct (get host meta "nostrPubkey") as [pk|e]; [|stopped].
  run_world.
  destruct (fst (createZapRequest E cfg sid _ pk _)) as [zr|e]; [|stopped].
  destruct (get host meta "callback") as [cb|e]; [|stopped].
  destruct (get host meta "lnurl") as [ln|e]; [|stopped].
  run_world.
  destruct (fst (getInvoiceFromCallback host E cb _ zr ln _)) as [inv|e];
    [|stopped].
  destruct (negb (truthy inv)); [stopped|].
  run_world.
  intros H. inversion H. right. right. split; [reflexivity|].
  eexists. split; reflexivity.
Qed.

Lemma step_preserves_inv (cfg : config) (m m' : manager) :
  session_inv m -> step cfg m m' -> session_inv m'.
Proof.
  intros [Hflag Hamt] Hstep.
  destruct Hstep as [host E a m w r m' w' Hrun | m | m].
  - destruct (initiatePayment_manager _ _ _ _ _ _ _ _ _ Hrun)
      as [-> | [[Hidle ->] | [Hidle (s & -> & Hs)]]].
    + split; assumption.
    + split; cbn; intros s Hs.
      * specialize (Hflag s Hs). congruence.
      * now apply Hamt.
    + split; cbn; intros s' Hs'; inversion Hs'; subst; auto.
  - split; cbn; intros s Hs; discriminate.
  - split; cbn; intros s Hs; discriminate.
Qed.

Lemma reachable_inv (cfg : config) (m : manager) :
  reachable cfg m -> session_inv m.
Proof.
  induction 1 as [|m m' _ IH Hstep].
  - split; cbn; intros s Hs; discriminate.
  - eapply step_preserves_inv; eauto.
Qed.

(** Claim C9, amended.  In every state the manager can reach, a
    stored session whose amount is an integer of sats with
    |amountSats| * 1000 <= 2^53 has amountMsats = 1000 * amountSats
    exactly; in general (for products below 2^1024) amountMsats is the
    double nearest to that product, which is what [amount * 1000] gives.
    No operation (a further [initiatePayment], [completePayment],
    [resetPayment]) changes the id of a stored session: the session is
    kept as it is or dropped. *)
Theorem session_amounts_and_id (cfg : config) (m : manager) :
  reachable cfg m ->
  (forall s a,
      currentSession m = Some s -> amountSats s = Num a ->
      (Z.abs a * 1000 <= 2 ^ 53 -> amountMsats s = Num (a * 1000))
      /\ (Z.abs a * 1000 < 2 ^ 1024 ->
          amountMsats s = Num (round53 (a * 1000))))
  /\ (forall m' s s',
         step cfg m m' ->
         currentSession m = Some s -> currentSession m' = Some s' ->
         id s' = id s).
Proof.
  intros Hreach. destruct (reachable_inv cfg m Hreach) as [Hflag Hamt].
  split.
  - intros s a Hs Ha. rewrite (Hamt s Hs), Ha. cbn [num_mul].
    split; [|reflexivity].
    intros Hsafe. rewrite Binary64Facts.round53_small; [reflexivity | lia].
  - intros m' s s' Hstep Hs Hs'.
    destruct Hstep as [host E a m w r m' w' Hrun | m | m];
      [|discriminate Hs' | discriminate Hs'].
    specialize (Hflag s Hs).
    destruct (initiatePayment_manager _ _ _ _ _ _ _ _ _ Hrun)
      as [-> | [[Hidle _] | [Hidle _]]]; congruence.
Qed.

Lemma negotiated_reachable :
  reachable Samples.payment_cfg Samples.negotiated.
Proof.
  apply (reachable_step _ new_manager); [apply reachable_new|].
  unfold Samples.negotiated.
  set (run := initiatePayment SampleHost.host
                (Samples.provider (Samples.metadata 1000 500000))
                Samples.payment_cfg None (new_manager, fresh_world)).
  apply (step_initiate _ SampleHost.host
           (Samples.provider (Samples.metadata 1000 500000))
           None new_manager fresh_world (fst run) _ (snd (snd run))).
  fold run. destruct run as [r [m' w']]. reflexivity.
Defined.

(** Claim C9: the session stored by one negotiation for 100 sats. *)
Lemma session_amounts_and_id_witness :
  match currentSession Samples.negotiated with
  | Some s => amountSats s = Num 100 /\ amountMsats s = Num (100 * 1000)
  | None => False
  end.
Proof.
  destruct (session_amounts_and_id Samples.payment_cfg Samples.negotiated
              negotiated_reachable) as [Hamt _].
  assert (Hstored : exists s, currentSession Samples.negotiated = Some s
                              /\ amountSats s = Num 100)
    by (eexists; split; vm_compute; reflexivity).
  destruct Hstored as (s & Hs & Ha). rewrite Hs.
  split; [exact Ha|].
  destruct (Hamt s 100 Hs Ha) as [Hexact _].
  apply Hexact. vm_compute. discriminate.
Defined.

(** Claim C9 as stated fails: a negotiation for 2^53 - 1 sats stores
    amountMsats = 9007199254740990976, the double nearest to the product,
    which is not 1000 times the amount. *)
Lemma amountMsats_rounded_above_2_53 :
  let run := initiatePayment SampleHost.host
               (Samples.provider (Samples.metadata 1000 (2 ^ 63)))
               Samples.payment_cfg (Some (Num 9007199254740991))
               (new_manager, fresh_world) in
  reachable Samples.payment_cfg (fst (snd run))
  /\ option_map amountSats (currentSession (fst (snd run)))
     = Some (Num 9007199254740991)
  /\ option_map amountMsats (currentSession (fst (snd run)))
     = Some (Num 9007199254740990976)
  /\ 9007199254740990976 <> 9007199254740991 * 1000.
Proof.
  cbv zeta. split; [|split; [|split]].
  - apply (reachable_step _ new_manager); [apply reachable_new|].
    set (run := initiatePayment SampleHost.host
                  (Samples.provider (Samples.metadata 1000 (2 ^ 63)))
                  Samples.payment_cfg (Some (Num 9007199254740991))
                  (new_manager, fresh_world)).
    apply (step_initiate _ SampleHost.host
             (Samples.provider (Samples.metadata 1000 (2 ^ 63)))
             (Some (Num 9007199254740991)) new_manager fresh_world
             (fst run) _ (snd (snd run))).
    fold run. destruct run as [r [m' w']]. reflexivity.
  - vm_compute. reflexivity.
  - vm_compute. reflexivity.
  - vm_compute. discriminate.
Qed.

(** The end-to-end run: 100 sats against bounds of 1000 to 500000
    msats. *)
Example negotiated_session :
  currentSession Samples.negotiated
  = Some {| id := "satsnake-1700000000000-k3x9q2m1z";
            amountSats := Num 100;
            amountMsats := Num 100000;
            invoice := VStr "lnbc1u1p0";
            zapRequest :=
              VObj [("kind", VNum (Num 9734));
                    ("content",
                      VStr "SatSnake game session: satsnake-1700000000000-k3x9q2m1z");
                    ("pubkey", VStr "");
                    ("created_at", VNum (Num 1700000000));
                    ("tags",
                      VArr [VArr [VStr "relays"; VStr "wss://relay.damus.io";
                                  VStr "wss://nos.lol"];
                            VArr [VStr "amount"; VStr "100000"];
                            VArr [VStr "lnurl"; VStr "alice@example.com"];
                            VArr [VStr "p"; VStr "npub-of-recipient"]])];
            createdAt := 1700000000002 |}.
Proof. vm_compute. reflexivity. Qed.

End SessionClaims.

(* ===================================================================== *)
(** * Part III: further properties of the code                           *)
(* ===================================================================== *)

(** ** The shape of the encoder's output *)

Module Bech32Shape.
Import Int32 Int32Facts Bech32 Bech32Facts Bech32Checksum.

Lemma groups_of5_all5 (l : list bool) :
  Forall (fun g => List.length g = 5%nat) (groups_of5 l).
Proof.
  induction l as [l Hl | a b c d e r IH] using list_ind5.
  - destruct l as [|a [|b [|c [|d [|e r]]]]]; cbn in Hl; try lia;
      repeat constructor.
  - rewrite groups_of5_cons5. constructor; [reflexivity | exact IH].
Qed.

Lemma groups_of5_length (l : list bool) :
  List.length (groups_of5 l) = ((List.length l + 4) / 5)%nat.
Proof.
  induction l as [l Hl | a b c d e r IH] using list_ind5.
  - destruct l as [|a [|b [|c [|d [|e r]]]]]; cbn in Hl; try lia;
      reflexivity.
  - rewrite groups_of5_cons5. cbn [List.length]. rewrite IH.
    replace (S (S (S (S (S (List.length r))))) + 4)%nat
      with (List.length r + 4 + 1 * 5)%nat by lia.
    rewrite Nat.div_add by lia. lia.
Qed.

Lemma payload_bits_length (data : list byte) :
  List.length (flat_map byte_bits data) = (8 * List.length data)%nat.
Proof.
  induction data as [|b data IH]; [reflexivity|].
  cbn [flat_map List.length]. rewrite length_app, byte_bits_length, IH. lia.
Qed.

Lemma group_value_range (g : list bool) :
  List.length g = 5%nat -> 0 <= bits_value g < 32.
Proof.
  intros H. pose proof (bits_value_range g) as R. rewrite H in R. exact R.
Qed.

Lemma bech32To5Bit_length (data : list byte) :
  List.length (bech32To5Bit data) = ((8 * List.length data + 4) / 5)%nat.
Proof.
  rewrite bech32To5Bit_spec. unfold spec_regroup.
  rewrite length_map, groups_of5_length, payload_bits_length. reflexivity.
Qed.

Lemma bech32To5Bit_range (data : list byte) :
  Forall (fun w => 0 <= w < 32) (bech32To5Bit data).
Proof.
  rewrite bech32To5Bit_spec. unfold spec_regroup.
  apply Forall_map.
  eapply Forall_impl; [|apply groups_of5_all5].
  intros g Hg. now apply group_value_range.
Qed.

(** Property X1.  [bech32To5Bit] turns n bytes into ceil(8n/5) words, and
    every word is a five-bit number. *)
Theorem bech32To5Bit_words (data : list byte) :
  List.length (bech32To5Bit data) = ((8 * List.length data + 4) / 5)%nat
  /\ Forall (fun w => 0 <= w < 32) (bech32To5Bit data).
Proof.
  split; [apply bech32To5Bit_length | apply bech32To5Bit_range].
Qed.


(** *** No bit is lost *)

Lemma bits_value_snoc (l : list bool) (b : bool) :
  bits_value (l ++ [b]) = 2 * bits_value l + Z.b2z b.
Proof.
  rewrite bits_value_app. cbn [List.length Z.of_nat].
  change (2 ^ Z.pos 1) with 2. change (bits_value [b]) with (2 * 0 + Z.b2z b).
  lia.
Qed.

Lemma bits_value_inj (a : list bool) :
  forall b, List.length a = List.length b ->
            bits_value a = bits_value b -> a = b.
Proof.
  induction a as [|x a IH] using rev_ind; intros b Hlen Hval.
  - destruct b; [reflexivity | discriminate].
  - destruct b as [|y b _] using rev_ind.
    { rewrite length_app in Hlen. cbn in Hlen. lia. }
    rewrite !length_app in Hlen. cbn [List.length] in Hlen.
    rewrite !bits_value_snoc in Hval.
    assert (Hxy : x = y) by (destruct x, y; cbn [Z.b2z] in Hval; lia || reflexivity).
    subst y. f_equal. apply IH; [lia|]. lia.
Qed.

Lemma groups_values_inj (g1 : list (list bool)) :
  forall g2,
    Forall (fun g => List.length g = 5%nat) g1 ->
    Forall (fun g => List.length g = 5%nat) g2 ->
    map bits_value g1 = map bits_value g2 -> g1 = g2.
Proof.
  induction g1 as [|x g1 IH]; intros g2 H1 H2 Hmap.
  - destruct g2; [reflexivity | discriminate].
  - destruct g2 as [|y g2]; [discriminate|].
    inversion H1; inversion H2; subst. cbn [map] in Hmap.
    inversion Hmap. f_equal; [apply bits_value_inj; congruence | auto].
Qed.

(** The groups, laid end to end, are the bit string followed by zeros. *)
Lemma concat_groups_of5 (l : list bool) :
  exists k, List.concat (groups_of5 l) = l ++ repeat false k.
Proof.
  induction l as [l Hl | a b c d e r IH] using list_ind5.
  - destruct l as [|a [|b [|c [|d [|e r]]]]]; cbn in Hl; try lia;
      [exists 0%nat; reflexivity | | | | ];
      eexists; cbn [groups_of5 List.concat]; rewrite app_nil_r; reflexivity.
  - destruct IH as [k Hk]. exists k.
    rewrite groups_of5_cons5. cbn [List.concat app]. now rewrite Hk.
Qed.

Lemma app_same_length {A : Type} (a : list A) :
  forall b x y, List.length a = List.length b ->
                a ++ x = b ++ y -> a = b /\ x = y.
Proof.
  induction a as [|h a IH]; intros b x y Hlen H.
  - destruct b; [auto | discriminate].
  - destruct b as [|h' b]; [discriminate|].
    cbn in *. inversion H; subst.
    destruct (IH b x y) as [-> ->]; auto.
Qed.

Lemma byte_val_inj (a b : byte) : byte_val a = byte_val b -> a = b.
Proof.
  unfold byte_val. intros H. apply N2Z.inj in H.
  pose proof (Byte.of_to_N a) as Ha. pose proof (Byte.of_to_N b) as Hb.
  rewrite H in Ha. congruence.
Qed.

Lemma payload_bits_inj (d1 : list byte) :
  forall d2, flat_map byte_bits d1 = flat_map byte_bits d2 -> d1 = d2.
Proof.
  induction d1 as [|a d1 IH]; intros d2 H.
  - destruct d2 as [|b d2]; [reflexivity | discriminate].
  - destruct d2 as [|b d2]; [discriminate|].
    cbn [flat_map] in H.
    apply app_same_length in H; [|reflexivity].
    destruct H as [Hab Hrest]. f_equal; [|now apply IH].
    apply byte_val_inj. rewrite <- !byte_bits_value. now rewrite Hab.
Qed.

(** Property X2.  [bech32To5Bit] drops no payload bit: two byte sequences
    with the same words are the same sequence. *)
Theorem bech32To5Bit_injective (d1 d2 : list byte) :
  bech32To5Bit d1 = bech32To5Bit d2 -> d1 = d2.
Proof.
  rewrite !bech32To5Bit_spec. unfold spec_regroup. intros H.
  assert (Hlen : List.length d1 = List.length d2).
  { apply (f_equal (@List.length Z)) in H.
    rewrite !length_map, !groups_of5_length, !payload_bits_length in H.
    pose proof (Nat.div_mod_eq (8 * List.length d1 + 4) 5).
    pose proof (Nat.div_mod_eq (8 * List.length d2 + 4) 5).
    pose proof (Nat.mod_upper_bound (8 * List.length d1 + 4) 5 ltac:(lia)).
    pose proof (Nat.mod_upper_bound (8 * List.length d2 + 4) 5 ltac:(lia)).
    lia. }
  apply groups_values_inj in H; try apply groups_of5_all5.
  apply payload_bits_inj.
  destruct (concat_groups_of5 (flat_map byte_bits d1)) as [k1 H1].
  destruct (concat_groups_of5 (flat_map byte_bits d2)) as [k2 H2].
  rewrite H, H2 in H1.
  apply app_same_length in H1; [now symmetry|].
  rewrite !payload_bits_length. lia.
Qed.

Lemma bech32To5Bit_injective_witness :
  bech32To5Bit [x68; x69] = bech32To5Bit [x68; x69]
  /\ [x68; x69] = [x68; x69].
Proof.
  split; [reflexivity|].
  apply (bech32To5Bit_injective [x68; x69] [x68; x69]). reflexivity.
Defined.

End Bech32Shape.

(** ** The checksum state *)

Module Bech32State.
Import Int32 Int32Facts Bech32 Bech32Facts Bech32Checksum Bech32Shape.

Lemma lxor_below (a b n : Z) :
  0 <= n -> 0 <= a < 2 ^ n -> 0 <= b < 2 ^ n -> 0 <= Z.lxor a b < 2 ^ n.
Proof.
  intros Hn Ha Hb.
  destruct (Z.eq_dec n 0) as [->|Hpos].
  { change (2 ^ 0) with 1 in *.
    replace a with 0 by lia. replace b with 0 by lia. cbn. lia. }
  assert (Hnn : 0 <= Z.lxor a b)
    by (apply Z.lxor_nonneg; split; intros; lia).
  split; [exact Hnn|].
  destruct (Z.eq_dec (Z.lxor a b) 0) as [->|Hnz];
    [apply Z.pow_pos_nonneg; lia|].
  apply Z.log2_lt_pow2; [lia|].
  eapply Z.le_lt_trans; [apply Z.log2_lxor; lia|].
  apply Z.max_lub_lt.
  - destruct (Z.eq_dec a 0) as [->|]; [cbn; lia|].
    apply Z.log2_lt_pow2; lia.
  - destruct (Z.eq_dec b 0) as [->|]; [cbn; lia|].
    apply Z.log2_lt_pow2; lia.
Qed.

Lemma pow30_lt_pow31 : 0 < 2 ^ 25 /\ 2 ^ 25 * 32 = 2 ^ 30 /\ 2 ^ 30 < 2 ^ 31.
Proof. repeat split. Qed.

Lemma xor_below (a b : Z) :
  0 <= a < 2 ^ 30 -> 0 <= b < 2 ^ 30 -> 0 <= xor a b < 2 ^ 30.
Proof.
  intros Ha Hb. unfold xor. pose proof pow30_lt_pow31.
  rewrite (wrap_small a), (wrap_small b) by lia.
  apply lxor_below; lia.
Qed.

(** A generator term is zero or the generator constant. *)
Lemma gen_term_cases (b i c : Z) :
  0 <= i < 32 -> 0 <= c < 2 ^ 30 -> gen_term b i c = 0 \/ gen_term b i c = c.
Proof.
  intros Hi Hc. unfold gen_term. pose proof pow30_lt_pow31.
  assert (Hbit : and (sar b i) 1 = 0 \/ and (sar b i) 1 = 1).
  { unfold and. change (wrap 1) with (Z.ones 1).
    rewrite Z.land_ones by lia.
    pose proof (Z.mod_pos_bound (wrap (sar b i)) (2 ^ 1) ltac:(lia)).
    change (2 ^ 1) with 2 in *. lia. }
  destruct Hbit as [-> | ->]; unfold and; rewrite (wrap_small c) by lia.
  - left. reflexivity.
  - right. change (wrap (- (1))) with (-1). apply Z.land_m1_l.
Qed.

Lemma gen_term_below (b i c : Z) :
  0 <= i < 32 -> 0 <= c < 2 ^ 30 -> 0 <= gen_term b i c < 2 ^ 30.
Proof.
  intros Hi Hc. destruct (gen_term_cases b i c Hi Hc) as [-> | ->]; lia.
Qed.

Lemma shifted_low_below (pre : Z) :
  0 <= shl (and pre 33554431) 5 < 2 ^ 30.
Proof.
  assert (H : 0 <= and pre 33554431 < 2 ^ 25).
  { unfold and. change (wrap 33554431) with (Z.ones 25).
    rewrite Z.land_ones by lia. apply Z.mod_pos_bound. lia. }
  pose proof pow30_lt_pow31.
  unfold shl. change (5 mod 32) with 5.
  rewrite (wrap_small (and pre 33554431)) by lia.
  rewrite Z.shiftl_mul_pow2 by lia. change (2 ^ 5) with 32.
  rewrite wrap_small; lia.
Qed.

(** Property X3.  Whatever number it is given, [bech32PolymodStep]
    returns a non-negative number below 2^30, so the checksum state never
    reaches the sign bit of the 32-bit operators. *)
Theorem bech32PolymodStep_range (pre : Z) :
  0 <= bech32PolymodStep pre < 2 ^ 30.
Proof.
  unfold bech32PolymodStep.
  repeat apply xor_below;
    first [ apply shifted_low_below | apply gen_term_below; lia ].
Qed.

Lemma bech32CreateChecksum_length (prefix : string) (data : list Z) :
  List.length (bech32CreateChecksum prefix data) = 6%nat.
Proof.
  rewrite bech32CreateChecksum_spec. unfold spec_checksum, split6.
  rewrite length_map. reflexivity.
Qed.

Lemma bech32CreateChecksum_range (prefix : string) (data : list Z) :
  Forall (fun w => 0 <= w < 32) (bech32CreateChecksum prefix data).
Proof.
  rewrite bech32CreateChecksum_spec. unfold spec_checksum, split6.
  apply Forall_map. apply Forall_forall. intros i _.
  apply Z.mod_pos_bound. lia.
Qed.

(** Property X4.  [bech32CreateChecksum] returns six five-bit symbols,
    for every prefix and every list of numbers. *)
Theorem bech32CreateChecksum_symbols (prefix : string) (data : list Z) :
  List.length (bech32CreateChecksum prefix data) = 6%nat
  /\ Forall (fun w => 0 <= w < 32) (bech32CreateChecksum prefix data).
Proof.
  split;
    [apply bech32CreateChecksum_length | apply bech32CreateChecksum_range].
Qed.

End Bech32State.

(** ** The encoded text *)

Module Bech32Text.
Import Int32 Int32Facts Bech32 Bech32Facts Bech32Checksum Bech32Shape
       Bech32State.

Lemma toUpperCase_app (a b : string) :
  toUpperCase (a ++ b) = (toUpperCase a ++ toUpperCase b)%string.
Proof. induction a as [|c a IH]; cbn; [reflexivity | now rewrite IH]. Qed.

Lemma length_append (a b : string) :
  String.length (a ++ b) = (String.length a + String.length b)%nat.
Proof. induction a as [|c a IH]; cbn; [reflexivity | now rewrite IH]. Qed.

Lemma list_ascii_app (a b : string) :
  list_ascii_of_string (a ++ b)
  = list_ascii_of_string a ++ list_ascii_of_string b.
Proof. induction a as [|c a IH]; cbn; [reflexivity | now rewrite IH]. Qed.

(** A five-bit word selects one character of the charset. *)
Lemma charset_at_symbol (w : Z) :
  0 <= w < 32 ->
  exists c, charset_at w = String c EmptyString
            /\ In c (list_ascii_of_string CHARSET).
Proof.
  intros Hw.
  assert (Hnat : w = Z.of_nat (Z.to_nat w)) by lia.
  assert (Hlt : (Z.to_nat w < 32)%nat) by lia.
  rewrite Hnat. generalize dependent (Z.to_nat w). intros n _ Hn.
  do 32 (destruct n as [|n];
         [eexists; split; [reflexivity | cbn; tauto]|]).
  lia.
Qed.

Lemma symbols_text (ws : list Z) :
  Forall (fun w => 0 <= w < 32) ws ->
  String.length (String.concat "" (map charset_at ws)) = List.length ws
  /\ Forall (fun c => In c (list_ascii_of_string CHARSET))
            (list_ascii_of_string (String.concat "" (map charset_at ws))).
Proof.
  induction 1 as [|w ws Hw _ [IHlen IHin]]; [split; [reflexivity|constructor]|].
  cbn [map]. rewrite concat_cons.
  destruct (charset_at_symbol w Hw) as (c & -> & Hc).
  cbn [append String.length list_ascii_of_string]. split.
  - now rewrite IHlen.
  - constructor; assumption.
Qed.

Lemma toUpperCase_length (s : string) :
  String.length (toUpperCase s) = String.length s.
Proof. induction s as [|c s IH]; cbn; [reflexivity | now rewrite IH]. Qed.

Lemma toUpperCase_list (s : string) :
  list_ascii_of_string (toUpperCase s)
  = map upper_ascii (list_ascii_of_string s).
Proof. induction s as [|c s IH]; cbn; [reflexivity | now rewrite IH]. Qed.

(** Property X5.  For an ASCII prefix, the text [bech32Encode] returns
    is the upper-cased prefix, the separator "1" and then exactly
    ceil(8n/5) + 6 symbols, each the upper-case form of a charset
    character: no word ever indexes outside the charset, and an empty
    payload still gets six checksum symbols. *)
Theorem bech32Encode_shape (prefix : string) (data : list byte) :
  ascii_only prefix = true ->
  exists body,
    bech32Encode prefix data = (toUpperCase prefix ++ "1" ++ body)%string
    /\ String.length body = ((8 * List.length data + 4) / 5 + 6)%nat
    /\ Forall (fun c => In c (list_ascii_of_string (toUpperCase CHARSET)))
              (list_ascii_of_string body).
Proof.
  intros _. unfold bech32Encode. rewrite fold_charset.
  set (ws := bech32To5Bit data ++ bech32CreateChecksum prefix (bech32To5Bit data)).
  assert (Hws : Forall (fun w => 0 <= w < 32) ws).
  { apply Forall_app. split.
    - apply bech32To5Bit_range.
    - apply bech32CreateChecksum_range. }
  destruct (symbols_text ws Hws) as [Hlen Hin].
  exists (toUpperCase (String.concat "" (map charset_at ws))).
  split; [|split].
  - rewrite !toUpperCase_app. rewrite append_assoc. reflexivity.
  - rewrite toUpperCase_length, Hlen. unfold ws. rewrite length_app.
    rewrite bech32To5Bit_length, bech32CreateChecksum_length.
    reflexivity.
  - rewrite (toUpperCase_list (String.concat "" (map charset_at ws))).
    apply Forall_map. rewrite toUpperCase_list.
    eapply Forall_impl; [|exact Hin].
    intros c Hc. now apply in_map.
Qed.

Lemma bech32Encode_shape_witness :
  ascii_only "lnurl" = true
  /\ exists body,
      bech32Encode "lnurl" [x68; x69]%byte
      = (toUpperCase "lnurl" ++ "1" ++ body)%string
      /\ String.length body = ((8 * 2 + 4) / 5 + 6)%nat
      /\ Forall (fun c => In c (list_ascii_of_string (toUpperCase CHARSET)))
                (list_ascii_of_string body).
Proof.
  split; [reflexivity|].
  apply (bech32Encode_shape "lnurl" [x68; x69]%byte). reflexivity.
Defined.

End Bech32Text.

(** ** What the validators accept *)

Module ValidatorFacts.
Import JS JSNotations NostrRelayManager RelayFacts.

(** Property X6.  [validateZapRequest] accepts a request only when the
    configured recipient key is the one-letter text "p", and then the
    amounts it reports are NaN: it can only find tags that are the bare
    words "amount" and "p". *)
Theorem validateZapRequest_accepts_bare_words
        (host : Host) (cfg : config) (zr : value) (sid : string)
        (expected am sats : number) :
  validateZapRequest host cfg zr sid expected = Ok (ZValid am sats) ->
  am = NaN /\ sats = NaN /\ recipientNostrPubkey cfg = VStr "p".
Proof.
  unfold validateZapRequest, find_tag.
  destruct (get host zr "kind") as [kind|e]; cbn; [|discriminate].
  destruct (negb (strict_eq kind (VNum (Num 9734)))); [discriminate|].
  destruct (get host zr "tags") as [tags|e]; cbn; [|discriminate].
  destruct tags as [| | | | |items|]; cbn; try discriminate.
  fold (lookup_tag items "amount") (lookup_tag items "p").
  destruct (truthy (lookup_tag items "amount")) eqn:Ha; cbn; [|discriminate].
  rewrite (lookup_tag_found _ _ Ha), parseInt10_amount.
  cbn [floor_div num_lt].
  destruct (truthy (lookup_tag items "p")) eqn:Hp; cbn [negb orb];
    [|discriminate].
  rewrite (lookup_tag_found _ _ Hp).
  destruct (recipientNostrPubkey cfg) as [| | | |s| |]; cbn [strict_eq negb];
    try discriminate.
  destruct (String.eqb "p" s) eqn:Hs; cbn [negb]; [|discriminate].
  apply String.eqb_eq in Hs. subst s.
  intros H. inversion H. auto.
Qed.

Lemma validateZapRequest_accepts_bare_words_witness :
  validateZapRequest SampleHost.host {| recipientNostrPubkey := VStr "p" |}
    (VObj [("kind", VNum (Num 9734));
           ("tags", VArr [VStr "amount"; VStr "p"])])
    "s1" (Num 100)
  = Ok (ZValid NaN NaN)
  /\ (NaN = NaN /\ NaN = NaN
      /\ recipientNostrPubkey {| recipientNostrPubkey := VStr "p" |}
         = VStr "p").
Proof.
  split; [reflexivity|].
  apply (validateZapRequest_accepts_bare_words SampleHost.host
           {| recipientNostrPubkey := VStr "p" |}
           (VObj [("kind", VNum (Num 9734));
                  ("tags", VArr [VStr "amount"; VStr "p"])])
           "s1" (Num 100)).
  reflexivity.
Defined.

(** Property X7.  With a JSON parser that rejects the word "description"
    (as every conforming parser does), [validateZapReceipt] rejects every
    event, for every configuration and expected amount: the text it hands
    to the parser is the tag it found, which is the word itself. *)
Theorem validateZapReceipt_rejects_all
        (host : Host) (cfg : config) (event : value) (sid : string)
        (expected : number) :
  JSON_parse host "description" = None ->
  exists reason,
    validateZapReceipt host cfg event sid expected = Ok (Invalid reason).
Proof.
  intros Hparse.
  pose proof (validateZapReceipt_never_valid host cfg event sid expected
                Hparse) as Hnever.
  unfold validateZapReceipt in *.
  match goal with
  | |- context [try_catch ?b _] =>
      destruct (try_catch_total b (fun e => Invalid (message e))) as [o Ho]
  end.
  rewrite Ho in *. destruct o as [reason | sats sender bolt11 zr].
  - now exists reason.
  - exfalso. now apply (Hnever sats sender bolt11 zr).
Qed.

Lemma validateZapReceipt_rejects_all_witness :
  exists reason,
    validateZapReceipt SampleHost.host {| recipientNostrPubkey := VStr "p" |}
      (Samples.receipt [VStr "bolt11"; VStr "description"; VStr "p"])
      "s1" (Num 100)
    = Ok (Invalid reason).
Proof.
  apply validateZapReceipt_rejects_all. reflexivity.
Defined.

(** Property X8.  The zap request that [createZapRequest] builds is
    rejected by [validateZapRequest] with "No amount in zap request", for
    every session id, amount, recipient key, configuration and clock. *)
Theorem createZapRequest_not_validated
        (host : Host) (E : Effects.env) (ui_cfg : LightningPaymentUI.config)
        (cfg : config) (sessionId : string) (amountSats : number)
        (recipientPubkey : value) (w : Effects.world)
        (sid : string) (expected : number) :
  exists zapRequest,
    fst (LightningPaymentUI.createZapRequest E ui_cfg sessionId amountSats
           recipientPubkey w) = Ok zapRequest
    /\ validateZapRequest host cfg zapRequest sid expected
       = Ok (ZInvalid "No amount in zap request").
Proof.
  eexists. split; [reflexivity|].
  unfold validateZapRequest, find_tag. cbn [get lookup String.eqb Ascii.eqb
    Bool.eqb bind strict_eq num_eq negb call_find].
  rewrite Z.eqb_refl. cbn [negb].
  match goal with
  | |- context [find ?p ?l] => change (find p l) with (lookup_tag l "amount")
  end.
  rewrite lookup_tag_arrays; reflexivity.
Qed.

End ValidatorFacts.

(** ** Setting up the relay manager *)

Module SetupFacts.
Import JS Effects EffectNotations NostrRelaySetup.

(** Property X9.  [resolveRecipientPubkey] never throws and makes exactly
    one request, to the well-known address.  It either returns null and
    leaves the manager as it was, or returns a truthy key that it has
    stored both in [recipientPubkey] and in the configuration. *)
Theorem resolveRecipientPubkey_outcomes
        (host : Host) (E : env) (address : string) (r : relay) (w : world) :
  let run := resolveRecipientPubkey host E address (r, w) in
  fetched (snd (snd run)) = fetched w ++ [lnurlp_url host address]
  /\ ((fst run = Ok VNull /\ fst (snd run) = r)
      \/ exists key,
          fst run = Ok key /\ truthy key = true
          /\ recipientPubkey (fst (snd run)) = key
          /\ NostrRelayManager.recipientNostrPubkey (config (fst (snd run)))
             = key
          /\ ndk_set (fst (snd run)) = ndk_set r).
Proof.
  unfold resolveRecipientPubkey, try_catchM, bindM, on_world, fetch, lift,
    ret, throw, store_pubkey.
  cbn [fst snd].
  destruct (net E (List.length (fetched w)) (lnurlp_url host address))
    as [e|ok status body]; [cbn; auto|].
  destruct ok; [|cbn; auto]. cbn [negb].
  destruct body as [data|e]; [|cbn; auto].
  destruct (get host data "nostrPubkey") as [key|e]; [|cbn; auto].
  destruct (truthy key) eqn:Hkey; cbn; [|auto].
  split; [reflexivity|]. right. exists key. auto.
Qed.

(** The part of the above that [initialize] relies on. *)
Lemma resolveRecipientPubkey_parts
      (host : Host) (E : env) (address : string) (r : relay) (w : world) :
  exists v,
    fst (resolveRecipientPubkey host E address (r, w)) = Ok v
    /\ ndk_set (fst (snd (resolveRecipientPubkey host E address (r, w))))
       = ndk_set r
    /\ fetched (snd (snd (resolveRecipientPubkey host E address (r, w))))
       = fetched w ++ [lnurlp_url host address].
Proof.
  unfold resolveRecipientPubkey, try_catchM, bindM, on_world, fetch, lift,
    ret, throw, store_pubkey.
  cbn [fst snd].
  destruct (net E (List.length (fetched w)) (lnurlp_url host address))
    as [e|ok status body]; [cbn; eauto|].
  destruct ok; [|cbn; eauto]. cbn [negb].
  destruct body as [data|e]; [|cbn; eauto].
  destruct (get host data "nostrPubkey") as [key|e]; [|cbn; eauto].
  destruct (truthy key); cbn; eauto.
Qed.

(** Property X10.  [initialize] never throws, and its answer depends on
    the NDK alone: true when the NDK is constructed and connects, whether
    or not the recipient key could be resolved, false otherwise, and then
    without any request. *)
Theorem initialize_outcomes
        (host : Host) (E : env) (newNDK connect : result unit)
        (address : string) (r : relay) (w : world) :
  let run := initialize host E newNDK connect address (r, w) in
  match newNDK, connect with
  | Ok _, Ok _ =>
      fst run = Ok true
      /\ ndk_set (fst (snd run)) = true
      /\ fetched (snd (snd run)) = fetched w ++ [lnurlp_url host address]
  | Ok _, Throw _ =>
      fst run = Ok false
      /\ ndk_set (fst (snd run)) = true
      /\ snd (snd run) = w
  | Throw _, _ =>
      fst run = Ok false /\ snd run = (r, w)
  end.
Proof.
  cbv zeta.
  destruct newNDK as [[]|e1]; [|destruct r; cbn; auto].
  destruct connect as [[]|e2]; [|cbn; auto].
  pose proof (resolveRecipientPubkey_parts host E address
                {| ndk_set := true; recipientPubkey := recipientPubkey r;
                   config := config r |} w) as (v & Hv & Hndk & Hf).
  unfold initialize, try_catchM, bindM, lift, store_ndk, ret.
  cbn [fst snd].
  destruct (resolveRecipientPubkey host E address _) as [res [r' w']].
  cbn [fst snd] in *. subst res. cbn. auto.
Qed.

End SetupFacts.

(** ** The negotiation flow as a whole *)

Module FlowFacts.
Import JS Effects EffectNotations LightningPaymentUI PaymentFacts.

Section WithHost.
Context (host : Host) (E : env) (cfg : config).

Lemma fetchLnurlMetadata_fetched (w : world) :
  fetched (snd (fetchLnurlMetadata host E cfg w))
  = fetched w ++ [lnurlp_url host cfg].
Proof.
  unfold fetchLnurlMetadata, try_catchM, bindM, lift, fetch, ret, throw.
  destruct (net E (List.length (fetched w)) (lnurlp_url host cfg))
    as [e|ok status body]; [reflexivity|].
  destruct ok; [|reflexivity]. cbn [negb].
  destruct body as [data|e]; [|reflexivity].
  destruct (get host data "status") as [st|e]; [|reflexivity].
  destruct (strict_eq st (VStr "ERROR")).
  { destruct (get host data "reason"); reflexivity. }
  destruct (get host data "callback") as [cb|e]; [|reflexivity].
  destruct (truthy cb); reflexivity.
Qed.

(** Property X11.  [fetchLnurlMetadata] never throws and makes exactly one
    request, to the well-known address.  It returns null, or an object
    that has the provider's truthy callback and the three fields the
    manager adds ([lnurl], [domain], [username]). *)
Theorem fetchLnurlMetadata_outcomes (w : world) :
  let run := fetchLnurlMetadata host E cfg w in
  fetched (snd run) = fetched w ++ [lnurlp_url host cfg]
  /\ (fst run = Ok VNull
      \/ exists props,
          fst run = Ok (VObj props)
          /\ truthy (lookup "callback" props) = true
          /\ lookup "lnurl" props
             = VStr (encodeLnurl host (lnurlp_url host cfg))
          /\ lookup "domain" props = domain cfg
          /\ lookup "username" props = username cfg).
Proof.
  unfold fetchLnurlMetadata, try_catchM, bindM, lift, fetch, ret, throw.
  destruct (net E (List.length (fetched w)) (lnurlp_url host cfg))
    as [e|ok status body]; [cbn; auto|].
  destruct ok; [|cbn; auto]. cbn [negb].
  destruct body as [data|e]; [|cbn; auto].
  destruct (get host data "status") as [st|e] eqn:Hst; [|cbn; auto].
  destruct (strict_eq st (VStr "ERROR")).
  { destruct (get host data "reason"); cbn; auto. }
  destruct (get host data "callback") as [cb|e] eqn:Hcb; [|cbn; auto].
  destruct (truthy cb) eqn:Htr; cbn [negb]; [|cbn; auto].
  cbn [fst snd]. split; [reflexivity|]. right.
  eexists. split; [reflexivity|].
  destruct data; cbn in Hcb; inversion Hcb; subst;
    try (cbn in Htr; discriminate).
  cbn. auto.
Qed.

(** The two ways [getInvoiceFromCallback] ends: with null, after one
    request at most, or with a truthy invoice, after exactly one. *)
Lemma getInvoiceFromCallback_cases
      (callback : value) (amountMsats : number) (zapRequest lnurl : value)
      (w : world) :
  let run := getInvoiceFromCallback host E callback amountMsats zapRequest
                                    lnurl w in
  (fst run = Ok VNull
   /\ (fetched (snd run) = fetched w
       \/ exists url, fetched (snd run) = fetched w ++ [url]))
  \/ exists inv url,
      truthy inv = true /\ fst run = Ok inv
      /\ urlWithParams host (to_string host callback)
           (callback_params host amountMsats zapRequest lnurl) = Ok url
      /\ fetched (snd run) = fetched w ++ [url].
Proof.
  unfold getInvoiceFromCallback, try_catchM, bindM, lift, ret, throw.
  destruct (urlWithParams host _ _) as [url|e] eqn:Hurl;
    [|left; cbn; auto].
  unfold fetch.
  assert (Hnull : forall w' : world,
             fetched w' = fetched w ++ [url] ->
             fst (@Ok value VNull, w') = Ok VNull
             /\ (fetched (snd (@Ok value VNull, w')) = fetched w
                 \/ exists url0,
                     fetched (snd (@Ok value VNull, w'))
                     = fetched w ++ [url0]))
    by (intros w' Hf; split; [reflexivity | right; now exists url]).
  destruct (net E (List.length (fetched w)) url) as [e|ok status body];
    [left; apply Hnull; reflexivity|].
  destruct ok; [|left; apply Hnull; reflexivity]. cbn [negb].
  destruct body as [data|e]; [|left; apply Hnull; reflexivity].
  destruct (get host data "status") as [st|e];
    [|left; apply Hnull; reflexivity].
  destruct (strict_eq st (VStr "ERROR")).
  { destruct (get host data "reason"); left; apply Hnull; reflexivity. }
  destruct (get host data "pr") as [pr|e]; [|left; apply Hnull; reflexivity].
  destruct (truthy pr) eqn:Hpr; cbn [negb];
    [|left; apply Hnull; reflexivity].
  right. exists pr, url. cbn. auto.
Qed.

(** Property X12.  [getInvoiceFromCallback] never throws; it returns null
    or a truthy invoice, makes one request at most, and never returns an
    invoice without having made the request. *)
Theorem getInvoiceFromCallback_outcomes
        (callback : value) (amountMsats : number) (zapRequest lnurl : value)
        (w : world) :
  let run := getInvoiceFromCallback host E callback amountMsats zapRequest
                                    lnurl w in
  exists v,
    fst run = Ok v
    /\ ((v = VNull
         /\ (fetched (snd run) = fetched w
             \/ exists url, fetched (snd run) = fetched w ++ [url]))
        \/ (truthy v = true
            /\ exists url, fetched (snd run) = fetched w ++ [url])).
Proof.
  cbv zeta.
  destruct (getInvoiceFromCallback_cases callback amountMsats zapRequest
              lnurl w) as [[Hnull Hlog] | (inv & url & Htr & Hinv & _ & Hlog)].
  - exists VNull. auto.
  - exists inv. split; [exact Hinv|]. right. split; [exact Htr|].
    now exists url.
Qed.

End WithHost.
End FlowFacts.

(** ** One negotiation, from start to end *)

Module NegotiationFacts.
Import JS Effects EffectNotations LightningPaymentUI PaymentFacts FlowFacts.

(** Step over a sub-computation that touches the world only. *)
Ltac advance := cbv beta; rewrite ?on_world_run; cbn [fst snd].

(** Every way a run of [initiatePayment] can end, with what it returns
    and what it leaves in the manager and in the request log. *)
Lemma initiatePayment_run
      (host : Host) (E : env) (cfg : config) (a : option number)
      (m : manager) (w : world) :
  let run := initiatePayment host E cfg a (m, w) in
  (paymentInProgress m = true /\ run = (Ok None, (m, w)))
  \/ (paymentInProgress m = false
      /\ fst run = Ok None
      /\ fst (snd run) = {| paymentInProgress := false;
                            currentSession := currentSession m |}
      /\ (fetched (snd (snd run)) = fetched w ++ [lnurlp_url host cfg]
          \/ exists url,
              fetched (snd (snd run))
              = fetched w ++ [lnurlp_url host cfg; url]))
  \/ (paymentInProgress m = false
      /\ exists sid zr inv created url,
          truthy inv = true
          /\ fst run = Ok (Some {| pr_invoice := inv;
                                   pr_amountSats := amount_or_default cfg a;
                                   pr_sessionId := sid |})
          /\ fst (snd run)
             = {| paymentInProgress := true;
                  currentSession :=
                    Some {| id := sid;
                            amountSats := amount_or_default cfg a;
                            amountMsats :=
                              num_mul (amount_or_default cfg a) (Num 1000);
                            invoice := inv;
                            zapRequest := zr;
                            createdAt := created |} |}
          /\ fetched (snd (snd run))
             = fetched w ++ [lnurlp_url host cfg; url]).
Proof.
  cbv zeta.
  unfold initiatePayment, try_catchM, bindM, read_paymentInProgress,
    set_paymentInProgress, set_currentSession, lift, ret, throw.
  cbn [fst snd].
  destruct (paymentInProgress m) eqn:Hbusy; [left; auto|].
  right. advance.
  destruct (generateSessionId_fetched E w) as (sid & Hsid & Hw1).
  rewrite Hsid. set (w1 := snd (generateSessionId E w)) in *.
  advance.
  pose proof (fetchLnurlMetadata_fetched host E cfg w1) as Hw2.
  rewrite Hw1 in Hw2.
  set (w2 := snd (fetchLnurlMetadata host E cfg w1)) in *.
  destruct (fst (fetchLnurlMetadata host E cfg w1)) as [meta|e];
    [|left; cbn [fst snd]; auto].
  destruct (negb (truthy meta)); [left; cbn [fst snd]; auto|].
  destruct (get host meta "allowsNostr") as [an|e]; [|left; cbn [fst snd]; auto].
  destruct (negb (truthy an)); [left; cbn [fst snd]; auto|].
  destruct (get host meta "nostrPubkey") as [pk|e]; [|left; cbn [fst snd]; auto].
  advance.
  destruct (createZapRequest_fetched E cfg sid (amount_or_default cfg a) pk w2)
    as (zr & Hzr & Hw3).
  rewrite Hzr. set (w3 := snd (createZapRequest E cfg sid _ pk w2)) in *.
  destruct (get host meta "callback") as [cb|e];
    [|left; cbn [fst snd]; rewrite Hw3; auto].
  destruct (get host meta "lnurl") as [ln|e];
    [|left; cbn [fst snd]; rewrite Hw3; auto].
  advance.
  set (msats := num_mul (amount_or_default cfg a) (Num 1000)).
  destruct (getInvoiceFromCallback_cases host E cb msats zr ln w3)
    as [[Hnull Hw4] | (inv & url & Htr & Hinv & _ & Hw4)];
    cbv zeta in *.
  - rewrite Hnull. cbn [truthy negb fst snd]. left.
    split; [reflexivity|]. split; [reflexivity|]. split; [reflexivity|].
    destruct Hw4 as [Hsame | (url & Hmore)].
    + left. now rewrite Hsame, Hw3.
    + right. exists url. rewrite Hmore, Hw3, Hw2, <- app_assoc. reflexivity.
  - rewrite Hinv, Htr. cbn [negb]. advance. unfold Date_now.
    cbn [fst snd]. right.
    split; [reflexivity|].
    exists sid, zr, inv,
      (clock E (clock_reads
                  (snd (getInvoiceFromCallback host E cb msats zr ln w3)))),
      url.
    cbn [fst snd]. repeat split; auto.
    cbn [fetched]. rewrite Hw4, Hw3, Hw2, <- app_assoc. reflexivity.
Qed.

(** Property X13.  [initiatePayment] of the payment manager never throws.
    When it returns a result, the manager was idle, the lock is now held,
    and the stored session carries the result's session id, amount (the
    argument, or [minPaymentSats] when it is missing or falsy) and
    invoice, which is truthy.  When it returns null, the manager's fields
    are what they were before the call. *)
Theorem initiatePayment_outcomes
        (host : Host) (E : env) (cfg : config) (a : option number)
        (m : manager) (w : world) :
  let run := initiatePayment host E cfg a (m, w) in
  let m' := fst (snd run) in
  exists r,
    fst run = Ok r
    /\ match r with
       | Some pr =>
           paymentInProgress m = false
           /\ paymentInProgress m' = true
           /\ truthy (pr_invoice pr) = true
           /\ pr_amountSats pr = amount_or_default cfg a
           /\ exists s,
               currentSession m' = Some s
               /\ id s = pr_sessionId pr
               /\ amountSats s = pr_amountSats pr
               /\ invoice s = pr_invoice pr
       | None => m' = m
       end.
Proof.
  cbv zeta.
  destruct (initiatePayment_run host E cfg a m w)
    as [[Hbusy Hrun]
       | [(Hidle & Hres & Hm & _)
         | (Hidle & sid & zr & inv & created & url & Htr & Hres & Hm & _)]];
    cbv zeta in *.
  - rewrite Hrun. exists None. split; reflexivity.
  - exists None. split; [exact Hres|]. rewrite Hm.
    destruct m as [busy cs]. cbn in Hidle |- *. now subst busy.
  - eexists. split; [exact Hres|]. rewrite Hm. cbn.
    repeat split; auto. eexists. repeat split.
Qed.

(** Property X14.  One call of [initiatePayment] makes two requests at
    most: none when a payment is in progress, and otherwise the metadata
    lookup first; a call that returns a result has made exactly two, the
    lookup and the callback. *)
Theorem initiatePayment_requests
        (host : Host) (E : env) (cfg : config) (a : option number)
        (m : manager) (w : world) :
  let run := initiatePayment host E cfg a (m, w) in
  exists requests,
    fetched (snd (snd run)) = fetched w ++ requests
    /\ (List.length requests <= 2)%nat
    /\ (if paymentInProgress m then requests = []
        else hd_error requests = Some (lnurlp_url host cfg))
    /\ match fst run with
       | Ok (Some _) => List.length requests = 2%nat
       | _ => True
       end.
Proof.
  cbv zeta.
  destruct (initiatePayment_run host E cfg a m w)
    as [[Hbusy Hrun]
       | [(Hidle & Hres & _ & [Hlog | (url & Hlog)])
         | (Hidle & sid & zr & inv & created & url & _ & Hres & _ & Hlog)]];
    cbv zeta in *.
  - rewrite Hrun, Hbusy. exists []. cbn. rewrite app_nil_r. auto.
  - rewrite Hres, Hidle. exists [lnurlp_url host cfg]. cbn. auto.
  - rewrite Hres, Hidle. exists [lnurlp_url host cfg; url]. cbn. auto.
  - rewrite Hres, Hidle. exists [lnurlp_url host cfg; url]. cbn. auto.
Qed.

(** Property X15.  After a call of [initiatePayment] that returned a
    result, [completePayment] returns the session id of that result and
    leaves the manager as the constructor makes it. *)
Theorem completePayment_after_initiatePayment
        (host : Host) (E : env) (cfg : config) (a : option number)
        (m : manager) (w : world) (pr : payment_result) :
  fst (initiatePayment host E cfg a (m, w)) = Ok (Some pr) ->
  completePayment (fst (snd (initiatePayment host E cfg a (m, w))))
  = (Some (pr_sessionId pr), new_manager).
Proof.
  intros Hpr.
  destruct (initiatePayment_run host E cfg a m w)
    as [[_ Hrun]
       | [(_ & Hres & _)
         | (_ & sid & zr & inv & created & url & _ & Hres & Hm & _)]];
    cbv zeta in *.
  - rewrite Hrun in Hpr. discriminate.
  - rewrite Hres in Hpr. discriminate.
  - rewrite Hres in Hpr. inversion Hpr. subst pr.
    rewrite Hm. reflexivity.
Qed.

Lemma completePayment_after_initiatePayment_witness :
  let pr := {| pr_invoice := VStr "lnbc1u1p0";
               pr_amountSats := Num 100;
               pr_sessionId := "satsnake-1700000000000-k3x9q2m1z" |} in
  let run := initiatePayment SampleHost.host
               (Samples.provider (Samples.metadata 1000 500000))
               Samples.payment_cfg None (new_manager, fresh_world) in
  fst run = Ok (Some pr)
  /\ completePayment (fst (snd run)) = (Some (pr_sessionId pr), new_manager).
Proof.
  cbv zeta.
  assert (H : fst (initiatePayment SampleHost.host
                     (Samples.provider (Samples.metadata 1000 500000))
                     Samples.payment_cfg None (new_manager, fresh_world))
              = Ok (Some {| pr_invoice := VStr "lnbc1u1p0";
                            pr_amountSats := Num 100;
                            pr_sessionId :=
                              "satsnake-1700000000000-k3x9q2m1z" |}))
    by (vm_compute; reflexivity).
  split; [exact H|].
  exact (completePayment_after_initiatePayment _ _ _ _ _ _ _ H).
Defined.

(** What [fetchLnurlMetadata] makes of a response whose body is an
    object: null, or the object with three more keys. *)
Lemma fetchLnurlMetadata_object
      (host : Host) (E : env) (cfg : config) (w : world)
      (ok : bool) (status : Z) (props : list (string * value)) :
  net E (List.length (fetched w)) (lnurlp_url host cfg)
  = Response ok status (Ok (VObj props)) ->
  fst (fetchLnurlMetadata host E cfg w) = Ok VNull
  \/ exists lnurl,
      fst (fetchLnurlMetadata host E cfg w)
      = Ok (VObj (("lnurl", lnurl) :: ("domain", domain cfg)
                  :: ("username", username cfg) :: props)).
Proof.
  intros Hnet.
  unfold fetchLnurlMetadata, try_catchM, bindM, lift, ret, throw, fetch.
  rewrite Hnet.
  destruct ok; cbn [negb get fst snd]; [|left; reflexivity].
  destruct (strict_eq (lookup "status" props) (VStr "ERROR"));
    [left; reflexivity|].
  destruct (truthy (lookup "callback" props)); cbn [negb];
    [|left; reflexivity].
  right. eexists. reflexivity.
Qed.

(** Property X16.  When the metadata that the provider returns has a
    falsy [allowsNostr], [initiatePayment] gives up after the metadata
    lookup: it returns null, leaves the manager's fields as they were and
    makes no request to the callback. *)
Theorem initiatePayment_needs_nostr
        (host : Host) (E : env) (cfg : config) (a : option number)
        (m : manager) (w : world) (ok : bool) (status : Z)
        (props : list (string * value)) :
  paymentInProgress m = false ->
  net E (List.length (fetched w)) (lnurlp_url host cfg)
  = Response ok status (Ok (VObj props)) ->
  truthy (lookup "allowsNostr" props) = false ->
  let run := initiatePayment host E cfg a (m, w) in
  fst run = Ok None
  /\ fst (snd run) = m
  /\ fetched (snd (snd run)) = fetched w ++ [lnurlp_url host cfg].
Proof.
  intros Hidle Hnet Hnostr. cbv zeta.
  assert (Hm : {| paymentInProgress := false;
                  currentSession := currentSession m |} = m)
    by (destruct m as [busy cs]; cbn in Hidle |- *; now subst busy).
  unfold initiatePayment, try_catchM, bindM, read_paymentInProgress,
    set_paymentInProgress, set_currentSession, lift, ret, throw.
  cbn [fst snd]. rewrite Hidle. advance.
  destruct (generateSessionId_fetched E w) as (sid & Hsid & Hw1).
  rewrite Hsid. set (w1 := snd (generateSessionId E w)) in *.
  advance.
  pose proof (fetchLnurlMetadata_fetched host E cfg w1) as Hw2.
  rewrite Hw1 in Hw2.
  rewrite <- Hw1 in Hnet.
  destruct (fetchLnurlMetadata_object host E cfg w1 ok status props Hnet)
    as [Hnull | (lnurl & Hobj)].
  - rewrite Hnull. cbn [truthy negb fst snd]. auto.
  - rewrite Hobj. cbn [truthy negb get lookup String.eqb Ascii.eqb Bool.eqb].
    rewrite Hnostr. cbn [negb fst snd]. auto.
Qed.

Lemma initiatePayment_needs_nostr_witness :
  let E := Samples.provider
             (VObj [("callback", VStr "https://example.com/cb");
                    ("allowsNostr", VBool false)]) in
  let run := initiatePayment SampleHost.host E Samples.payment_cfg None
               (new_manager, fresh_world) in
  fst run = Ok None
  /\ fst (snd run) = new_manager
  /\ fetched (snd (snd run))
     = fetched fresh_world ++ [lnurlp_url SampleHost.host Samples.payment_cfg].
Proof.
  cbv zeta.
  apply (initiatePayment_needs_nostr SampleHost.host
           (Samples.provider
              (VObj [("callback", VStr "https://example.com/cb");
                     ("allowsNostr", VBool false)]))
           Samples.payment_cfg None new_manager fresh_world true 200
           [("callback", VStr "https://example.com/cb");
            ("allowsNostr", VBool false)]);
    reflexivity.
Defined.

End NegotiationFacts.

(** ** The tip manager (js/lightning/LightningPaymentManager.js) *)

Module TipFacts.
Import JS Effects EffectNotations LightningPaymentManager PaymentFacts.

(** Property X17.  [initiatePayment] of the tip manager never throws and
    makes exactly one request, to the fixed endpoint, whatever the
    answer: the provider's callback is never called.  What it returns is
    a failure or a success that passes the amount and the session id
    through, with the fixed Lightning address and the encoded endpoint. *)
Theorem tip_initiatePayment_one_request
        (host : Host) (E : env) (amountSats : number) (sessionId : string)
        (w : world) :
  let run := initiatePayment host E amountSats sessionId w in
  fetched (snd run) = fetched w ++ [lnurlEndpoint]
  /\ ((exists error, fst run = Ok (Failure error))
      \/ exists lnurlData,
          fst run = Ok (Success lnurlData (lnurlToBech32 lnurlEndpoint)
                                lightningAddress amountSats sessionId)).
Proof.
  cbv zeta.
  unfold initiatePayment, try_catchM, bindM, lift, ret, throw, fetch.
  destruct (net E (List.length (fetched w)) lnurlEndpoint)
    as [e|ok status body];
    [split; [reflexivity | left; eexists; reflexivity]|].
  destruct ok; cbn [negb];
    [|split; [reflexivity | left; eexists; reflexivity]].
  destruct body as [data|e];
    [|split; [reflexivity | left; eexists; reflexivity]].
  destruct (get host data "minSendable") as [mn|e];
    [|split; [reflexivity | left; eexists; reflexivity]].
  destruct (lt_quot amountSats (to_number host mn) 1000);
    [split; [reflexivity | left; eexists; reflexivity]|].
  destruct (get host data "maxSendable") as [mx|e];
    [|split; [reflexivity | left; eexists; reflexivity]].
  cbn [fst snd].
  destruct (gt_quot amountSats (to_number host mx) 1000);
    [split; [reflexivity | left; eexists; reflexivity]|].
  destruct (get host data "tag") as [tag|e];
    [|split; [reflexivity | left; eexists; reflexivity]].
  split; [reflexivity | right; eexists; reflexivity].
Qed.

(** Property X18.  Against metadata with numeric bounds, for an amount
    and bounds that are safe integers (2^53 at most in magnitude), the
    tip manager accepts the amount exactly when its thousandfold lies
    between [minSendable] and [maxSendable], both ends included; every
    other amount fails with the out-of-range message.  On safe integers
    the quotient by 1000, which the code rounds to a double before it
    compares, decides as the exact quotient does. *)
Theorem tip_initiatePayment_bounds
        (host : Host) (E : env) (a mn mx : Z) (sessionId : string)
        (w : world) (status : Z) (props : list (string * value)) :
  Z.abs a <= 2 ^ 53 -> Z.abs mn <= 2 ^ 53 -> Z.abs mx <= 2 ^ 53 ->
  net E (List.length (fetched w)) lnurlEndpoint
  = Response true status (Ok (VObj props)) ->
  lookup "minSendable" props = VNum (Num mn) ->
  lookup "maxSendable" props = VNum (Num mx) ->
  fst (initiatePayment host E (Num a) sessionId w)
  = Ok (if (mn <=? a * 1000) && (a * 1000 <=? mx)
        then Success (VObj props) (lnurlToBech32 lnurlEndpoint)
                     lightningAddress (Num a) sessionId
        else Failure ("Amount " ++ num_to_string (Num a)
                      ++ " sats is outside allowed range")%string).
Proof.
  intros _ Hmn Hmx Hnet Hmin Hmax.
  unfold initiatePayment, try_catchM, bindM, lift, ret, throw, fetch.
  rewrite Hnet. cbn [negb get]. rewrite Hmin.
  cbn [to_number]. rewrite (Binary64Facts.lt_quot_exact a mn Hmn).
  rewrite (Z.leb_antisym (a * 1000) mn).
  destruct (a * 1000 <? mn); cbn [negb andb]; [reflexivity|].
  rewrite Hmax. cbn [to_number fst snd].
  rewrite (Binary64Facts.gt_quot_exact a mx Hmx).
  rewrite (Z.leb_antisym mx (a * 1000)).
  destruct (mx <? a * 1000); reflexivity.
Qed.

Lemma tip_initiatePayment_bounds_witness :
  fst (initiatePayment SampleHost.host
         (Samples.provider (Samples.metadata 1000 500000))
         (Num 500) "s1" fresh_world)
  = Ok (if (1000 <=? 500 * 1000) && (500 * 1000 <=? 500000)
        then Success (Samples.metadata 1000 500000)
                     (lnurlToBech32 lnurlEndpoint)
                     lightningAddress (Num 500) "s1"
        else Failure ("Amount " ++ num_to_string (Num 500)
                      ++ " sats is outside allowed range")%string).
Proof.
  apply (tip_initiatePayment_bounds SampleHost.host
           (Samples.provider (Samples.metadata 1000 500000))
           500 1000 500000 "s1" fresh_world 200);
    first [reflexivity | vm_compute; discriminate].
Defined.

(** Property X19.  Against metadata that names neither bound, the tip
    manager accepts every amount, a missing one included: both
    comparisons are made with NaN and fail. *)
Theorem tip_initiatePayment_without_bounds
        (host : Host) (E : env) (amountSats : number) (sessionId : string)
        (w : world) (status : Z) (props : list (string * value)) :
  net E (List.length (fetched w)) lnurlEndpoint
  = Response true status (Ok (VObj props)) ->
  lookup "minSendable" props = VUndefined ->
  lookup "maxSendable" props = VUndefined ->
  fst (initiatePayment host E amountSats sessionId w)
  = Ok (Success (VObj props) (lnurlToBech32 lnurlEndpoint)
                lightningAddress amountSats sessionId).
Proof.
  intros Hnet Hmin Hmax.
  unfold initiatePayment, try_catchM, bindM, lift, ret, throw, fetch.
  rewrite Hnet. cbn [negb get]. rewrite Hmin, Hmax.
  cbn [to_number]. unfold lt_quot, gt_quot.
  destruct amountSats; reflexivity.
Qed.

Lemma tip_initiatePayment_without_bounds_witness :
  fst (initiatePayment SampleHost.host
         (Samples.provider Samples.metadata_without_bounds)
         (Num 100000000) "s1" fresh_world)
  = Ok (Success Samples.metadata_without_bounds
                (lnurlToBech32 lnurlEndpoint)
                lightningAddress (Num 100000000) "s1").
Proof.
  apply (tip_initiatePayment_without_bounds SampleHost.host
           (Samples.provider Samples.metadata_without_bounds)
           (Num 100000000) "s1" fresh_world 200); reflexivity.
Defined.

End TipFacts.

(** ** The game's payment flow *)

Module GameFlowFacts.
Import JS Effects EffectNotations SatSnakeGame GameFlow.

Section WithHost.
Context (host : Host) (E : env)
        (payment_cfg : LightningPaymentUI.config)
        (relay_cfg : NostrRelayManager.config).

Lemma set_paymentManager_same (g : game) :
  set_paymentManager g (paymentManager g) = g.
Proof. destruct g; reflexivity. Qed.

(** The game's [initiatePayment], read off the payment manager's run. *)
Lemma initiatePayment_started {Sub : Type}
      (ndk : option (NostrRelayManager.filter -> result Sub))
      (g : game) (w : world) :
  alert (initiatePayment host E payment_cfg relay_cfg ndk g w) = None ->
  exists pr m w',
    LightningPaymentUI.initiatePayment host E payment_cfg None
      (paymentManager g, w) = (Ok (Some pr), (m, w'))
    /\ after (initiatePayment host E payment_cfg relay_cfg ndk g w)
       = listenForPayment host relay_cfg ndk (clock E (clock_reads w'))
           (LightningPaymentUI.pr_sessionId pr)
           (LightningPaymentUI.pr_amountSats pr)
           (showWaiting (set_paymentManager g m))
    /\ LightningPaymentUI.paymentInProgress m = true
    /\ (exists s,
           LightningPaymentUI.currentSession m = Some s
           /\ LightningPaymentUI.id s = LightningPaymentUI.pr_sessionId pr
           /\ LightningPaymentUI.amountSats s
              = LightningPaymentUI.pr_amountSats pr)
    /\ clock_reads
         (world_after (initiatePayment host E payment_cfg relay_cfg ndk g w))
       = S (clock_reads w').
Proof.
  unfold initiatePayment.
  pose proof (NegotiationFacts.initiatePayment_run host E payment_cfg None
                (paymentManager g) w) as Hrun.
  cbv zeta in Hrun.
  destruct (LightningPaymentUI.initiatePayment host E payment_cfg None
              (paymentManager g, w)) as [[[pr|]|e] [m w']];
    cbn; try discriminate.
  intros _. exists pr, m, w'.
  split; [reflexivity|]. split; [reflexivity|].
  cbn [fst snd] in Hrun.
  destruct Hrun
    as [[_ Hrun]
       | [(_ & Hres & _)
         | (_ & sid & zr & inv & created & url & _ & Hres & Hm & _)]];
    try discriminate.
  inversion Hres. subst pr m. cbn. split; [reflexivity|].
  split; [|reflexivity].
  eexists. repeat split.
Qed.

(** The timeout callback leaves the payment manager alone. *)
Lemma onTimeout_paymentManager (g : game) :
  paymentManager (onTimeout g) = paymentManager g.
Proof. unfold onTimeout. destruct (timeoutArmed g); reflexivity. Qed.

(** Property X20.  When the game's [initiatePayment] raises no alert, the
    payment manager holds the lock and a session, the waiting section
    shows and the timer is armed.  If the relay listener could be set up
    (at [now], the time the listener read from the clock, the last
    reading of the run), the subscription is for exactly that session's
    id and amount and the status text is untouched; if it could not, the
    subscription field is unchanged and the status text reports the
    error. *)
Theorem initiatePayment_listens_for_session {Sub : Type}
        (ndk : option (NostrRelayManager.filter -> result Sub))
        (g : game) (w : world) :
  let r := initiatePayment host E payment_cfg relay_cfg ndk g w in
  let g' := after r in
  let now := clock E (Nat.pred (clock_reads (world_after r))) in
  alert r = None ->
  exists s,
    LightningPaymentUI.currentSession (paymentManager g') = Some s
    /\ LightningPaymentUI.paymentInProgress (paymentManager g') = true
    /\ waitingShown g' = true
    /\ timeoutArmed g' = true
    /\ match NostrRelayManager.listenForZapReceipt host relay_cfg ndk now
       with
       | Ok _ =>
           subscription g'
           = Some (LightningPaymentUI.id s, LightningPaymentUI.amountSats s)
           /\ paymentStatus g' = paymentStatus g
       | Throw error =>
           subscription g' = subscription g
           /\ paymentStatus g'
              = ("Error listening for payment: " ++ message error)%string
       end.
Proof.
  cbv zeta. intros Hquiet.
  destruct (initiatePayment_started ndk g w Hquiet)
    as (pr & m & w' & Hrun & Hafter & Hlock & (s & Hs & Hid & Hamt)
        & Hclock).
  rewrite Hafter, Hclock. cbn [Nat.pred].
  exists s. unfold listenForPayment.
  destruct (NostrRelayManager.listenForZapReceipt host relay_cfg ndk _);
    cbn; rewrite ?Hid, ?Hamt; auto 6.
Qed.

(** Property X21.  Once a payment has been started, running into the
    timeout and asking again is refused: the second [initiatePayment]
    raises the failure alert, makes no request and changes nothing, since
    the timeout callback has left the manager's lock in place. *)
Theorem initiatePayment_after_timeout_refused {Sub : Type}
        (ndk : option (NostrRelayManager.filter -> result Sub))
        (g : game) (w : world) :
  let first := initiatePayment host E payment_cfg relay_cfg ndk g w in
  let second := initiatePayment host E payment_cfg relay_cfg ndk
                  (onTimeout (after first)) (world_after first) in
  alert first = None ->
  alert second = Some "Failed to create payment. Please try again."
  /\ after second = onTimeout (after first)
  /\ world_after second = world_after first.
Proof.
  cbv zeta. intros Hquiet.
  destruct (initiatePayment_started ndk g w Hquiet)
    as (pr & m & w' & _ & Hafter & Hlock & _).
  set (first := initiatePayment host E payment_cfg relay_cfg ndk g w) in *.
  assert (Hbusy : LightningPaymentUI.paymentInProgress
                    (paymentManager (onTimeout (after first))) = true).
  { rewrite onTimeout_paymentManager, Hafter. unfold listenForPayment.
    destruct (NostrRelayManager.listenForZapReceipt host relay_cfg ndk _);
      exact Hlock. }
  unfold initiatePayment.
  unfold LightningPaymentUI.initiatePayment, try_catchM, bindM,
    LightningPaymentUI.read_paymentInProgress, ret.
  cbn [fst snd]. rewrite Hbusy. cbn.
  rewrite set_paymentManager_same. auto.
Qed.

(** Property X22.  While the host's [JSON.parse] rejects the word
    [description], as every JSON parser does, nothing that reaches the
    waiting game, relay events and the timer alike, unlocks it, releases
    the payment manager or closes the subscription. *)
Theorem waiting_game_never_unlocks (inputs : list input) (g : game) :
  JSON_parse host "description" = None ->
  let g' := fold_left (deliver host relay_cfg) inputs g in
  gameUnlocked g' = gameUnlocked g
  /\ paymentManager g' = paymentManager g
  /\ subscription g' = subscription g.
Proof.
  intros Hparse. cbv zeta. revert g.
  induction inputs as [|i inputs IH]; intros g; [cbn; auto|].
  cbn [fold_left].
  destruct (IH (deliver host relay_cfg g i)) as (Hu & Hm & Hs).
  rewrite Hu, Hm, Hs. clear IH Hu Hm Hs.
  destruct i as [event|]; cbn [deliver].
  - unfold onRelayEvent.
    destruct (subscription g) as [[sid amt]|] eqn:Hsub; [|auto].
    unfold NostrRelayManager.onRelayEvent.
    pose proof (RelayFacts.validateZapReceipt_never_valid host relay_cfg
                  event sid amt Hparse) as Hnever.
    destruct (NostrRelayManager.validateZapReceipt host relay_cfg event sid
                amt) as [[reason | sats sender bolt11 zr]|e];
      cbn [JS.bind]; auto.
    exfalso. now apply (Hnever sats sender bolt11 zr).
  - unfold onTimeout. destruct (timeoutArmed g); cbn; auto.
Qed.

End WithHost.

Lemma initiatePayment_listens_for_session_witness :
  let r := @initiatePayment SampleHost.host
             (Samples.provider (Samples.metadata 1000 500000))
             Samples.payment_cfg Samples.relay_cfg unit
             (Some (fun _ => Ok tt))
             {| paymentManager := LightningPaymentUI.new_manager;
                gameUnlocked := false;
                paymentStatus := "";
                waitingShown := false;
                timeoutArmed := false;
                subscription := None |} fresh_world in
  alert r = None
  /\ exists s,
      LightningPaymentUI.currentSession (paymentManager (after r)) = Some s
      /\ LightningPaymentUI.paymentInProgress (paymentManager (after r))
         = true
      /\ waitingShown (after r) = true
      /\ timeoutArmed (after r) = true
      /\ subscription (after r)
         = Some (LightningPaymentUI.id s, LightningPaymentUI.amountSats s)
      /\ paymentStatus (after r) = "".
Proof.
  cbv zeta. split; [vm_compute; reflexivity|].
  destruct (initiatePayment_listens_for_session SampleHost.host
              (Samples.provider (Samples.metadata 1000 500000))
              Samples.payment_cfg Samples.relay_cfg
              (Some (fun _ => Ok tt))
              {| paymentManager := LightningPaymentUI.new_manager;
                 gameUnlocked := false;
                 paymentStatus := "";
                 waitingShown := false;
                 timeoutArmed := false;
                 subscription := None |} fresh_world)
    as (s & Hs & Hlock & Hshown & Harmed & Hsub & Hstatus);
    [vm_compute; reflexivity|].
  exists s. auto 6.
Defined.

Lemma initiatePayment_after_timeout_refused_witness :
  let first := @initiatePayment SampleHost.host
                 (Samples.provider (Samples.metadata 1000 500000))
                 Samples.payment_cfg Samples.relay_cfg unit
                 (Some (fun _ => Ok tt))
                 {| paymentManager := LightningPaymentUI.new_manager;
                    gameUnlocked := false;
                    paymentStatus := "";
                    waitingShown := false;
                    timeoutArmed := false;
                    subscription := None |} fresh_world in
  let second := @initiatePayment SampleHost.host
                  (Samples.provider (Samples.metadata 1000 500000))
                  Samples.payment_cfg Samples.relay_cfg unit
                  (Some (fun _ => Ok tt))
                  (onTimeout (after first)) (world_after first) in
  alert first = None
  /\ alert second = Some "Failed to create payment. Please try again."
  /\ after second = onTimeout (after first)
  /\ world_after second = world_after first.
Proof.
  cbv zeta. split; [vm_compute; reflexivity|].
  apply (initiatePayment_after_timeout_refused SampleHost.host
           (Samples.provider (Samples.metadata 1000 500000))
           Samples.payment_cfg Samples.relay_cfg
           (Some (fun _ => Ok tt))).
  vm_compute. reflexivity.
Defined.

Lemma waiting_game_never_unlocks_witness :
  let g' := fold_left (deliver SampleHost.host Samples.relay_cfg)
              [RelayEvent
                 (Samples.receipt
                    [VArr [VStr "bolt11"; VStr "lnbc1u1p0"];
                     VArr [VStr "description"; VStr "null"];
                     VArr [VStr "p"; VStr "npub-of-recipient"]]);
               TimerFires]
              Samples.awaiting_game in
  JSON_parse SampleHost.host "description" = None
  /\ gameUnlocked g' = gameUnlocked Samples.awaiting_game
  /\ paymentManager g' = paymentManager Samples.awaiting_game
  /\ subscription g' = subscription Samples.awaiting_game.
Proof.
  cbv zeta. split; [reflexivity|].
  apply (waiting_game_never_unlocks SampleHost.host Samples.relay_cfg).
  reflexivity.
Defined.

End GameFlowFacts.
